(** * word.py: run-preserving text replacement in Word paragraphs

    A shallow embedding of [src/word.py] and the properties of its
    replacement routine, of the document walk and of the batch loop.

    Conventions of the embedding.
    - A Python [str] is a list of code points ([N]); [lit] turns an ASCII
      literal into one.
    - A python-docx paragraph is the ordered list of its runs; a run is its
      text, its style reference and its font.  [paragraph.add_run] appends a
      run with a fresh font (every attribute unset).
    - A font attribute that may be unset is an [option].  The colour is an
      RGB triple, truthy whenever it is set; the highlight is the integer
      of its colour index, truthy unless it is 0 (the index AUTO).
      Subscript and superscript are read from, and written to, the one
      vertical-alignment setting of the run, as python-docx does.
    - A function that mutates its paragraph returns the new paragraph next
      to its Python result.
    - A table is the list of its cells and, for every row, the positions
      of the cells [row.cells] lists, one per grid column: a merged cell is
      listed once for each grid position it covers, and the walk rewrites
      its paragraphs in place at every listing.
    - [datetime] and [strftime] are modelled as far as the batch uses
      them: the two exceptions of the constructor and the fields [%d],
      [%m] and [%Y]. *)

From Stdlib Require Import List NArith ZArith Arith Bool Lia.
From Stdlib Require String Ascii DecimalString.
Import ListNotations.
Import String.StringSyntax.
Delimit Scope string_scope with string.

(** ** Python strings *)

Definition char := N.
Definition str := list char.

Definition SPACE : char := 32%N.
Definition NBSP : char := 160%N.
Definition LF : char := 10%N.

Definition lit (s : String.string) : str :=
  map Ascii.N_of_ascii (String.list_ascii_of_string s).
Arguments lit s%_string.

Definition char_eqb (a b : char) : bool := N.eqb a b.

(** [s.startswith(p)] *)
Fixpoint startswith (p s : str) : bool :=
  match p, s with
  | [], _ => true
  | _ :: _, [] => false
  | a :: p', b :: s' => char_eqb a b && startswith p' s'
  end.

(** [s.find(sub)]: the lowest index at which [sub] occurs in [s];
    [None] stands for Python's [-1]. *)
Fixpoint str_find (sub s : str) : option nat :=
  if startswith sub s then Some 0
  else match s with
       | [] => None
       | _ :: s' => option_map S (str_find sub s')
       end.

(** [sub in s] *)
Definition str_in (sub s : str) : bool :=
  match str_find sub s with Some _ => true | None => false end.

(** [s.replace(a, b)] for one-character [a] and [b]. *)
Definition str_replace_char (a b : char) (s : str) : str :=
  map (fun c => if char_eqb c a then b else c) s.

(** ** Fonts, runs and paragraphs *)

Definition tri := option bool.
Definition rgb := (N * N * N)%type.

Inductive underline_t :=
| UnderlineBool (b : bool)
| UnderlineStyle (n : N).

(** The vertical alignment of a run: python-docx reads [subscript] and
    [superscript] from it and writes them to it. *)
Inductive vert_align_t :=
| Baseline
| Superscript
| Subscript.

Module Font.
Record t := mk {
  name : option str;
  size : option N;
  bold : tri;
  italic : tri;
  underline : option underline_t;
  strike : tri;
  vert_align : option vert_align_t;
  color_rgb : option rgb;
  highlight_color : option N
}.

(** The font of a run that [add_run] has just created. *)
Definition fresh : t :=
  mk None None None None None None None None None.

(** [font.subscript]: unset without a vertical alignment, [True] for a
    subscript, [False] otherwise; [font.superscript] likewise. *)
Definition subscript (f : t) : tri :=
  match vert_align f with
  | None => None
  | Some Subscript => Some true
  | Some _ => Some false
  end.

Definition superscript (f : t) : tri :=
  match vert_align f with
  | None => None
  | Some Superscript => Some true
  | Some _ => Some false
  end.

Definition set_name v f :=
  mk v (size f) (bold f) (italic f) (underline f) (strike f)
     (vert_align f) (color_rgb f) (highlight_color f).
Definition set_size v f :=
  mk (name f) v (bold f) (italic f) (underline f) (strike f)
     (vert_align f) (color_rgb f) (highlight_color f).
Definition set_bold v f :=
  mk (name f) (size f) v (italic f) (underline f) (strike f)
     (vert_align f) (color_rgb f) (highlight_color f).
Definition set_italic v f :=
  mk (name f) (size f) (bold f) v (underline f) (strike f)
     (vert_align f) (color_rgb f) (highlight_color f).
Definition set_underline v f :=
  mk (name f) (size f) (bold f) (italic f) v (strike f)
     (vert_align f) (color_rgb f) (highlight_color f).
Definition set_strike v f :=
  mk (name f) (size f) (bold f) (italic f) (underline f) v
     (vert_align f) (color_rgb f) (highlight_color f).
Definition set_vert_align v f :=
  mk (name f) (size f) (bold f) (italic f) (underline f) (strike f)
     v (color_rgb f) (highlight_color f).

(** [font.subscript = v]: [None] removes the vertical alignment, [True]
    sets it to subscript, [False] removes it when it is subscript and
    leaves it alone otherwise; [font.superscript = v] likewise. *)
Definition set_subscript (v : tri) (f : t) : t :=
  match v with
  | None => set_vert_align None f
  | Some true => set_vert_align (Some Subscript) f
  | Some false =>
    match vert_align f with
    | Some Subscript => set_vert_align None f
    | _ => f
    end
  end.

Definition set_superscript (v : tri) (f : t) : t :=
  match v with
  | None => set_vert_align None f
  | Some true => set_vert_align (Some Superscript) f
  | Some false =>
    match vert_align f with
    | Some Superscript => set_vert_align None f
    | _ => f
    end
  end.

Definition set_color_rgb v f :=
  mk (name f) (size f) (bold f) (italic f) (underline f) (strike f)
     (vert_align f) v (highlight_color f).
Definition set_highlight_color v f :=
  mk (name f) (size f) (bold f) (italic f) (underline f) (strike f)
     (vert_align f) (color_rgb f) v.
End Font.

(** [copy_font_style(source_font, target_font)]: the target font after the
    call.  The eight plain attributes are assigned unconditionally, through
    their setters; the colour and the highlight only when the source's
    value is truthy, so a highlight of index 0 is not copied. *)
Definition copy_font_style (source_font target_font : Font.t) : Font.t :=
  let target_font := Font.set_name (Font.name source_font) target_font in
  let target_font := Font.set_size (Font.size source_font) target_font in
  let target_font := Font.set_bold (Font.bold source_font) target_font in
  let target_font := Font.set_italic (Font.italic source_font) target_font in
  let target_font :=
    Font.set_underline (Font.underline source_font) target_font in
  let target_font := Font.set_strike (Font.strike source_font) target_font in
  let target_font :=
    Font.set_subscript (Font.subscript source_font) target_font in
  let target_font :=
    Font.set_superscript (Font.superscript source_font) target_font in
  let target_font :=
    match Font.color_rgb source_font with
    | Some c => Font.set_color_rgb (Some c) target_font
    | None => target_font
    end in
  match Font.highlight_color source_font with
  | Some h =>
    if (h =? 0)%N then target_font
    else Font.set_highlight_color (Some h) target_font
  | None => target_font
  end.

(** A style reference; [None] is the document's default character style. *)
Definition style_ref := option N.

Record Run := mkRun {
  text : str;
  style : style_ref;
  font : Font.t
}.

Record Paragraph := mkParagraph { runs : list Run }.

(** ["".join(run.text for run in paragraph.runs)] *)
Definition join_runs (rs : list Run) : str := concat (map text rs).
Definition full_text (paragraph : Paragraph) : str :=
  join_runs (runs paragraph).

(** [paragraph.add_run(t)]: a run with text [t], the default style and a
    fresh font is appended; the call returns it. *)
Definition add_run (paragraph : Paragraph) (t : str) : Paragraph * Run :=
  let new_run := mkRun t None Font.fresh in
  (mkParagraph (runs paragraph ++ [new_run]), new_run).

(** An assignment through [new_run] acts on the run just appended. *)
Definition restyle_last (paragraph : Paragraph) (new_run : Run) : Paragraph :=
  mkParagraph (removelast (runs paragraph) ++ [new_run]).

(** The three statements every branch of the rebuild loop uses to emit a
    run: [new_run = paragraph.add_run(t)], [new_run.style = style] and
    [copy_font_style(font, new_run.font)]. *)
Definition add_styled_run (paragraph : Paragraph) (t : str)
    (st : style_ref) (f : Font.t) : Paragraph :=
  let '(paragraph, new_run) := add_run paragraph t in
  let new_run := mkRun (text new_run) st (font new_run) in
  let new_run :=
    mkRun (text new_run) (style new_run)
          (copy_font_style f (font new_run)) in
  restyle_last paragraph new_run.

(** ** The replacer *)

(** The removal loop: [len(paragraph.runs)] times, drop the first run. *)
Definition clear_runs (paragraph : Paragraph) : Paragraph :=
  mkParagraph
    (Nat.iter (length (runs paragraph)) (@tl Run) (runs paragraph)).

Record LoopState := mkLoop {
  ls_paragraph : Paragraph;
  current_pos : nat;
  replacement_done : bool
}.

(** One iteration of the loop [for text, style, font in runs_data]. *)
Definition rebuild_step (start_index end_index : nat) (new_text : str)
    (st : LoopState) (rd : str * style_ref * Font.t) : LoopState :=
  let '(t, sty, fnt) := rd in
  let paragraph := ls_paragraph st in
  let run_len := length t in
  let overlap_start := Nat.max (current_pos st) start_index in
  let overlap_end := Nat.min (current_pos st + run_len) end_index in
  if overlap_start <? overlap_end then
    let pre_text := firstn (overlap_start - current_pos st) t in
    let paragraph :=
      match pre_text with
      | [] => paragraph
      | _ :: _ => add_styled_run paragraph pre_text sty fnt
      end in
    let '(paragraph, done) :=
      if negb (replacement_done st)
      then (add_styled_run paragraph new_text sty fnt, true)
      else (paragraph, replacement_done st) in
    let post_text := skipn (overlap_end - current_pos st) t in
    let paragraph :=
      match post_text with
      | [] => paragraph
      | _ :: _ => add_styled_run paragraph post_text sty fnt
      end in
    mkLoop paragraph (current_pos st + run_len) done
  else
    mkLoop (add_styled_run paragraph t sty fnt)
           (current_pos st + run_len) (replacement_done st).

(** [replace_text_in_runs(paragraph, old_text, new_text)]: the returned
    boolean and the paragraph after the call.  After the membership tests
    [find] cannot return [-1], so the [None] branch of the last [match] is
    never taken (see [replace_text_in_runs_eq]). *)
Definition replace_text_in_runs (paragraph : Paragraph)
    (old_text new_text : str) : bool * Paragraph :=
  let full_text := join_runs (runs paragraph) in
  let located :=
    if negb (str_in old_text full_text) then
      let old_text_nbsp := str_replace_char SPACE NBSP old_text in
      if negb (str_in old_text_nbsp full_text) then None
      else Some old_text_nbsp
    else Some old_text in
  match located with
  | None => (false, paragraph)
  | Some old_text =>
    match str_find old_text full_text with
    | None => (false, paragraph)
    | Some start_index =>
      let end_index := start_index + length old_text in
      let runs_data :=
        map (fun run => (text run, style run, font run)) (runs paragraph) in
      let paragraph := clear_runs paragraph in
      let final :=
        fold_left (rebuild_step start_index end_index new_text) runs_data
                  (mkLoop paragraph 0 false) in
      (true, ls_paragraph final)
    end
  end.

(** ** Notions used to state the properties *)

(** [sub] occurs in [s] at character offset [i]. *)
Definition occurs_at (sub s : str) (i : nat) : Prop :=
  exists pre post, s = pre ++ sub ++ post /\ length pre = i.

(** The variant of [old_text] that the replacer tries second. *)
Definition nbsp_variant (old_text : str) : str :=
  str_replace_char SPACE NBSP old_text.

(** The range [(start_index, end_index)] the replacer settles on. *)
Definition locate (old_text full : str) : option (nat * nat) :=
  match str_find old_text full with
  | Some i => Some (i, i + length old_text)
  | None =>
    match str_find (nbsp_variant old_text) full with
    | Some i => Some (i, i + length old_text)
    | None => None
    end
  end.

(** The font a new run gets from [copy_font_style]. *)
Definition copied (f : Font.t) : Font.t := copy_font_style f Font.fresh.

(** A run as the rebuild loop re-creates it: same text, same style, the
    font copied into a fresh one. *)
Definition recopy (r : Run) : Run := mkRun (text r) (style r) (copied (font r)).

(** A run that carries text [t] with the style and font of [r]. *)
Definition emit (t : str) (r : Run) : Run := mkRun t (style r) (font r).

Definition fragment (t : str) (r : Run) : list Run :=
  match t with
  | [] => []
  | _ :: _ => [emit t r]
  end.

Definition overlaps (c s e : nat) (r : Run) : bool :=
  Nat.max c s <? Nat.min (c + length (text r)) e.

(** What one iteration of the rebuild loop appends for the run [r] that
    starts at offset [c], [d] being the flag [replacement_done], before the
    fonts are copied. *)
Definition pieces (c : nat) (d : bool) (s e : nat) (new_text : str)
    (r : Run) : list Run :=
  if overlaps c s e r then
    fragment (firstn (Nat.max c s - c) (text r)) r
    ++ (if d then [] else [emit new_text r])
    ++ fragment (skipn (Nat.min (c + length (text r)) e - c) (text r)) r
  else [r].

(** The rebuild loop as a recursion over the snapshot, before the fonts
    are copied: the loop appends [map recopy] of these runs. *)
Fixpoint rebuild (c : nat) (d : bool) (s e : nat) (new_text : str)
    (rs : list Run) : list Run :=
  match rs with
  | [] => []
  | r :: rs' =>
    pieces c d s e new_text r
    ++ rebuild (c + length (text r)) (d || overlaps c s e r) s e new_text rs'
  end.

(** The rebuild loop entered at offset [c] with the flag it has there when
    it started at the head of the paragraph: set once the cursor is past
    [s]. *)
Fixpoint rebuild_from (c s e : nat) (new_text : str) (rs : list Run)
    : list Run :=
  match rs with
  | [] => []
  | r :: rs' =>
    pieces c (s <? c) s e new_text r
    ++ rebuild_from (c + length (text r)) s e new_text rs'
  end.

(** Where offset [q] of a text lands once its range [[s, e)] has been
    replaced by [l] characters ([q] not inside the range). *)
Definition moved (s e l q : nat) : nat :=
  if q <=? s then q else s + l + (q - e).

(** Every character of a paragraph with the style and font of its run. *)
Definition attributed_run (r : Run) : list (char * style_ref * Font.t) :=
  map (fun ch => (ch, style r, font r)) (text r).
Definition attributed (rs : list Run) : list (char * style_ref * Font.t) :=
  flat_map attributed_run rs.

(** Offset of the [k]-th run in the concatenated text. *)
Definition offset (rs : list Run) (k : nat) : nat :=
  length (join_runs (firstn k rs)).


Definition is_empty_run (r : Run) : bool :=
  match text r with [] => true | _ :: _ => false end.
Definition count_empty (rs : list Run) : nat :=
  length (filter is_empty_run rs).

(** ** The document walk *)

(** The characters [str.strip()] removes: those for which [str.isspace()]
    holds.  The non-breaking space is one of them. *)
Definition is_space (c : char) : bool :=
  ((9 <=? c) && (c <=? 13) || (28 <=? c) && (c <=? 32)
   || (c =? 133) || (c =? 160) || (c =? 5760)
   || (8192 <=? c) && (c <=? 8202)
   || (c =? 8232) || (c =? 8233) || (c =? 8239) || (c =? 8287)
   || (c =? 12288))%N.

Fixpoint lstrip (s : str) : str :=
  match s with
  | [] => []
  | c :: s' => if is_space c then lstrip s' else s
  end.

Definition rstrip (s : str) : str := rev (lstrip (rev s)).

(** [s.strip()] trims both ends. *)
Definition strip (s : str) : str := rstrip (lstrip s).

(** What dot-star consumes: every character up to, and not including, the
    first line feed (the dot does not match a line feed). *)
Fixpoint dot_star (s : str) : str :=
  match s with
  | [] => []
  | c :: s' => if char_eqb c LF then [] else c :: dot_star s'
  end.

(** The regular-expression search of the driver: the pattern is one group
    made of the escaped [name_prefix] followed by dot-star, and the result
    is [group(1)] of [pattern.search(full)], if any.  The escaped prefix
    matches itself only and dot-star never fails, so the match starts at the
    leftmost occurrence of the prefix. *)
Definition search_name_line (name_prefix full : str) : option str :=
  match str_find name_prefix full with
  | Some i =>
    Some (name_prefix ++ dot_star (skipn (i + length name_prefix) full))
  | None => None
  end.

(** The body of both loops of [process_all_text_locations]; the source
    repeats it for body paragraphs and for table paragraphs. *)
Definition process_paragraph (date_placeholder new_date_str name_prefix
    new_name : str) (paragraph : Paragraph) : Paragraph :=
  (* A. Replace Date *)
  let '(_, paragraph) :=
    replace_text_in_runs paragraph date_placeholder new_date_str in
  (* B. Replace Name *)
  let full_para_text := join_runs (runs paragraph) in
  match search_name_line name_prefix full_para_text with
  | Some m =>
    let old_profile_line := strip m in
    let new_profile_line := name_prefix ++ [SPACE] ++ new_name in
    snd (replace_text_in_runs paragraph old_profile_line new_profile_line)
  | None => paragraph
  end.

Record Cell := mkCell { cell_paragraphs : list Paragraph }.

(** [row.cells] holds one entry per grid column, so python-docx lists a
    merged cell once for every grid position it covers, and every listing
    is the same cell of the table.  A row is therefore the list of the
    positions of its cells among the cells of the table. *)
Record Row := mkRow { cells : list nat }.
Record Table := mkTable {
  table_cells : list Cell;
  rows : list Row
}.
Record Document := mkDocument {
  paragraphs : list Paragraph;
  tables : list Table
}.

(** [l] with [f] applied to its element at position [k]. *)
Fixpoint map_at {A} (k : nat) (f : A -> A) (l : list A) {struct l}
    : list A :=
  match l, k with
  | [], _ => []
  | x :: l', 0 => f x :: l'
  | x :: l', S k' => x :: map_at k' f l'
  end.

(** The loop over [cell.paragraphs]: every paragraph of the cell is
    rewritten in place. *)
Definition process_cell (step : Paragraph -> Paragraph) (cell : Cell) : Cell :=
  mkCell (map step (cell_paragraphs cell)).

(** The loop over [row.cells], on the cells of the table. *)
Definition process_row (step : Paragraph -> Paragraph)
    (store : list Cell) (row : Row) : list Cell :=
  fold_left (fun store k => map_at k (process_cell step) store)
            (cells row) store.

(** The loop over [table.rows]. *)
Definition process_table (step : Paragraph -> Paragraph) (table : Table)
    : Table :=
  mkTable (fold_left (process_row step) (rows table) (table_cells table))
          (rows table).

(** [process_all_text_locations]: the document after the call. *)
Definition process_all_text_locations (document : Document)
    (date_placeholder new_date_str name_prefix new_name : str) : Document :=
  let step :=
    process_paragraph date_placeholder new_date_str name_prefix new_name in
  mkDocument
    (* 1. main body paragraphs *)
    (map step (paragraphs document))
    (* 2. all paragraphs inside all tables *)
    (map (process_table step) (tables document)).

(** The paragraphs reachable from a document: the top-level ones, then
    those of every cell listed in a row of a table, once per listing. *)
Definition reachable (document : Document) : list Paragraph :=
  paragraphs document
  ++ flat_map
       (fun table =>
          flat_map
            (fun row =>
               flat_map
                 (fun k =>
                    match nth_error (table_cells table) k with
                    | Some cell => cell_paragraphs cell
                    | None => []
                    end)
                 (cells row))
            (rows table))
       (tables document).

(** How many times the rows of a table list its cell at position [k]. *)
Definition visits (table : Table) (k : nat) : nat :=
  count_occ Nat.eq_dec (flat_map cells (rows table)) k.

(** The name-line search and the paragraph step as the specification words
    them: the match runs from the first occurrence of the prefix to the end
    of the concatenated text, and its trailing whitespace is trimmed. *)
Definition spec_name_line (name_prefix full : str) : option str :=
  match str_find name_prefix full with
  | Some i => Some (rstrip (skipn i full))
  | None => None
  end.

Definition spec_process_paragraph (date_placeholder new_date_str name_prefix
    new_name : str) (paragraph : Paragraph) : Paragraph :=
  let paragraph :=
    snd (replace_text_in_runs paragraph date_placeholder new_date_str) in
  match spec_name_line name_prefix (full_text paragraph) with
  | Some line =>
    snd (replace_text_in_runs paragraph line
           (name_prefix ++ [SPACE] ++ new_name))
  | None => paragraph
  end.

(** ** The batch loop *)

Definition DATE_PLACEHOLDER : str := lit "Le 01/09/2025".
Definition NAME_PLACEHOLDER_PREFIX : str := lit "Profil" ++ [NBSP] ++ lit ":".
Definition TARGET_NAME : str := [].

(** [calendar.monthrange(year, month)[1]] *)
Definition is_leap (year : Z) : bool :=
  ((year mod 4 =? 0) && (negb (year mod 100 =? 0) || (year mod 400 =? 0)))%Z.

Definition days_in_month (year month : Z) : nat :=
  match month with
  | 2%Z => if is_leap year then 29 else 28
  | 4%Z | 6%Z | 9%Z | 11%Z => 30
  | _ => 31
  end.

(** The years and months [datetime] accepts. *)
Definition valid_year_month (year month : Z) : bool :=
  ((1 <=? year) && (year <=? 9999) && (1 <=? month) && (month <=? 12))%Z.

(** The integers a C [int] holds. *)
Definition fits_c_int (z : Z) : bool :=
  ((-2147483648 <=? z) && (z <=? 2147483647))%Z.

(** [strftime] fields: [%d] and [%m] are two digits; [%Y] is the year in
    decimal, four digits from the year 1000 on and not padded below. *)
Definition digit (d : nat) : char := N.of_nat (48 + d).
Definition two_digits (n : nat) : str := [digit (n / 10); digit (n mod 10)].
Definition year_digits (year : Z) : str :=
  lit (DecimalString.NilEmpty.string_of_uint (N.to_uint (Z.to_N year))).

(** The file operations of the loop; each may raise. *)
Inductive io_op :=
| MakeDirs
| LoadTemplate
| CopyTemplate (i : nat)
| OpenCopy (i : nat)
| SaveReport (i : nat)
| RemoveTemp (i : nat).

Inductive exn :=
| ValueError
| OverflowError
| FileNotFoundError
| OtherException.

(** [datetime(year, month, 1)]: the arguments are converted to C [int]s,
    which raises [OverflowError] for one that does not fit; a year or a
    month out of range then raises [ValueError]. *)
Definition datetime (year month : Z) : exn + unit :=
  if negb (fits_c_int year && fits_c_int month) then inl OverflowError
  else if negb (valid_year_month year month) then inl ValueError
  else inr tt.

Inductive message :=
| MsgInvalidDate
| MsgStarting
| MsgGenerated (output_filename formatted_date_fr : str)
| MsgTemplateNotFound
| MsgUnexpectedError.

Inductive event :=
| Print (m : message)
| Call (op : io_op)
| Wrote (output_filename : str) (document : Document).

(** The outside world: the template's content and the operations that
    fail, with the exception they raise. *)
Record World := mkWorld {
  template : Document;
  fails : io_op -> option exn
}.

(** Computations that log events and may raise. *)
Definition IO (A : Type) : Type := (list event * (exn + A))%type.

Definition ret {A} (a : A) : IO A := ([], inr a).
Definition raise {A} (e : exn) : IO A := ([], inl e).
Definition bind {A B} (m : IO A) (k : A -> IO B) : IO B :=
  match m with
  | (log, inl e) => (log, inl e)
  | (log, inr a) => let '(log', r) := k a in (log ++ log', r)
  end.
Definition tell (ev : event) : IO unit := ([ev], inr tt).
Definition try_except (body : IO unit) (handler : exn -> IO unit) : IO unit :=
  match body with
  | (log, inl e) => let '(log', r) := handler e in (log ++ log', r)
  | (log, inr a) => (log, inr a)
  end.

Notation "m ;; k" := (bind m (fun _ => k))
  (at level 61, right associativity).

Definition perform (w : World) (op : io_op) : IO unit :=
  tell (Call op) ;;
  match fails w op with
  | Some e => raise e
  | None => ret tt
  end.

(** [for i in range(n)], counting from [i0]. *)
Fixpoint for_range (i0 n : nat) (body : nat -> IO unit) : IO unit :=
  match n with
  | 0 => ret tt
  | S n' => body i0 ;; for_range (S i0) n' body
  end.

(** One iteration of the loop over the days of the month. *)
Definition generate_one (w : World) (target_month target_year : Z)
    (i : nat) : IO unit :=
  let dd := two_digits (i + 1) in
  let mm := two_digits (Z.to_nat target_month) in
  let yyyy := year_digits target_year in
  let formatted_date_fr := lit "Le " ++ dd ++ lit "/" ++ mm ++ lit "/" ++ yyyy in
  let date_part := dd ++ lit "-" ++ mm ++ lit "-" ++ yyyy in
  let output_filename :=
    lit "Rapport_d_activite_" ++ date_part ++ lit ".docx" in
  perform w (CopyTemplate i) ;;
  perform w (OpenCopy i) ;;
  let new_doc :=
    process_all_text_locations (template w) DATE_PLACEHOLDER
      formatted_date_fr NAME_PLACEHOLDER_PREFIX TARGET_NAME in
  perform w (SaveReport i) ;;
  tell (Wrote output_filename new_doc) ;;
  perform w (RemoveTemp i) ;;
  tell (Print (MsgGenerated output_filename formatted_date_fr)).

(** [generate_monthly_reports_docx]: the events of a call, in order, and
    whether an exception leaves the function.  The handler around the
    construction of the start date takes [ValueError] only; the folder
    step runs before the second [try].  The folder part of the paths is
    left out; the name passed on is the module's [TARGET_NAME], not the
    parameter, as in the source. *)
Definition generate_monthly_reports_docx (w : World) (target_name : str)
    (target_month target_year : Z) : IO unit :=
  match datetime target_year target_month with
  | inl ValueError => tell (Print MsgInvalidDate)
  | inl e => raise e
  | inr _ =>
    let days_in_month := days_in_month target_year target_month in
    perform w MakeDirs ;;
    tell (Print MsgStarting) ;;
    try_except
      (perform w LoadTemplate ;;
       for_range 0 days_in_month (generate_one w target_month target_year))
      (fun e =>
         match e with
         | FileNotFoundError => tell (Print MsgTemplateNotFound)
         | _ => tell (Print MsgUnexpectedError)
         end)
  end.

Definition io_op_eqb (a b : io_op) : bool :=
  match a, b with
  | MakeDirs, MakeDirs | LoadTemplate, LoadTemplate => true
  | CopyTemplate i, CopyTemplate j | OpenCopy i, OpenCopy j
  | SaveReport i, SaveReport j | RemoveTemp i, RemoveTemp j => i =? j
  | _, _ => false
  end.

(** The operation [op] was attempted. *)
Definition called (op : io_op) (log : list event) : bool :=
  existsb (fun ev => match ev with Call op' => io_op_eqb op op' | _ => false end)
          log.

(** The day an operation of the loop belongs to. *)
Definition op_day (op : io_op) : option nat :=
  match op with
  | CopyTemplate i | OpenCopy i | SaveReport i | RemoveTemp i => Some i
  | MakeDirs | LoadTemplate => None
  end.

Definition printed (m : message) (log : list event) : Prop :=
  In (Print m) log.

(** ** Sample inputs *)

Definition bold_font : Font.t := Font.set_bold (Some true) Font.fresh.

(** ["Le "] in bold followed by ["01/09/2025"] in the default font. *)
Definition date_paragraph : Paragraph :=
  mkParagraph [mkRun (lit "Le ") None bold_font;
               mkRun (lit "01/09/2025") None Font.fresh].

(** A name line with a line break after the first name. *)
Definition two_line_name_paragraph : Paragraph :=
  mkParagraph
    [mkRun (NAME_PLACEHOLDER_PREFIX ++ lit " Jean" ++ [LF] ++ lit "Dupont")
           None Font.fresh].

(** A name line whose value is the date placeholder. *)
Definition dated_name_paragraph : Paragraph :=
  mkParagraph
    [mkRun NAME_PLACEHOLDER_PREFIX None bold_font;
     mkRun (lit " Le 01/09/2025") None Font.fresh].

Definition sample_document : Document :=
  mkDocument [date_paragraph]
    [mkTable [mkCell [dated_name_paragraph]; mkCell []] [mkRow [0; 1]]].

(** A table of one row whose only cell is merged over two columns and
    holds a name line. *)
Definition merged_cell_document : Document :=
  mkDocument []
    [mkTable
       [mkCell
          [mkParagraph
             [mkRun (NAME_PLACEHOLDER_PREFIX ++ lit " Jean Dupont") None
                    Font.fresh]]]
       [mkRow [0; 0]]].

(** A name line after other text, for a prefix that starts with a space. *)
Definition indented_name_paragraph : Paragraph :=
  mkParagraph [mkRun (lit "x Profil: Jean") None Font.fresh].

(** The variant of ["x y"] first, then ["x y"] twice, over two runs. *)
Definition repeated_paragraph : Paragraph :=
  mkParagraph
    [mkRun (lit "x" ++ [NBSP] ++ lit "y, x ") None bold_font;
     mkRun (lit "y, x y") None Font.fresh].

(** Two placeholders, each across a run boundary, in three runs. *)
Definition two_placeholder_paragraph : Paragraph :=
  mkParagraph
    [mkRun (lit "on {D") None bold_font;
     mkRun (lit "} by {N") None Font.fresh;
     mkRun (lit "}.") (Some 7%N) Font.fresh].

(** A highlight of index 0, and an explicit baseline alignment. *)
Definition auto_highlight_font : Font.t :=
  Font.set_highlight_color (Some 0%N) Font.fresh.
Definition baseline_font : Font.t :=
  Font.set_vert_align (Some Baseline) Font.fresh.

(** ["ab"] highlighted with index 0, then ["cd"] on an explicit baseline. *)
Definition highlighted_paragraph : Paragraph :=
  mkParagraph [mkRun (lit "ab") None auto_highlight_font;
               mkRun (lit "cd") None baseline_font].

(** One run holding two one-letter placeholders side by side. *)
Definition ab_paragraph : Paragraph :=
  mkParagraph [mkRun (lit "AB") None Font.fresh].

(** A world in which saving the first report fails. *)
Definition first_save_fails : World :=
  mkWorld sample_document
    (fun op => match op with
               | SaveReport 0 => Some OtherException
               | _ => None
               end).

(** ** The prompt loop and the entry point *)

Inductive input_error :=
| NotAnInteger
| MonthOutOfRange
| YearOutOfRange.

(** What the prompt loop shows: the two prompts of [input], the message of
    the [ValueError] handler and the message of the catch-all handler. *)
Inductive ui_event :=
| PromptMonth
| PromptYear
| PrintInvalidInput (e : input_error)
| PrintInputError.

Definition logged {A} (evs : list ui_event) (r : list ui_event * A)
    : list ui_event * A :=
  (evs ++ fst r, snd r).

Section Prompt.

(** The builtin [int] on a line of input; [None] is its [ValueError]. *)
Variable int : str -> option Z.

(** [get_user_input()] on the lines standard input still holds.  [input]
    at the end of the input raises [EOFError], which the catch-all handler
    takes, and the loop starts over; [fuel] bounds the number of passes
    through [while True], and [None] means the bound was reached. *)
Fixpoint get_user_input (fuel : nat) (lines : list str)
    : list ui_event * option (Z * Z) :=
  match fuel with
  | 0 => ([], None)
  | S fuel =>
    match lines with
    | [] => logged [PromptMonth; PrintInputError] (get_user_input fuel [])
    | month_input :: lines =>
      match int month_input with
      | None =>
        logged [PromptMonth; PrintInvalidInput NotAnInteger]
               (get_user_input fuel lines)
      | Some target_month =>
        if negb ((1 <=? target_month) && (target_month <=? 12))%Z then
          logged [PromptMonth; PrintInvalidInput MonthOutOfRange]
                 (get_user_input fuel lines)
        else
          match lines with
          | [] =>
            logged [PromptMonth; PromptYear; PrintInputError]
                   (get_user_input fuel [])
          | year_input :: lines =>
            match int year_input with
            | None =>
              logged [PromptMonth; PromptYear; PrintInvalidInput NotAnInteger]
                     (get_user_input fuel lines)
            | Some target_year =>
              if ((target_year <? 2000) || (target_year >? 2100))%Z then
                logged
                  [PromptMonth; PromptYear; PrintInvalidInput YearOutOfRange]
                  (get_user_input fuel lines)
              else ([PromptMonth; PromptYear], Some (target_month, target_year))
            end
          end
      end
    end
  end.

(** The block under [if __name__ == "__main__"]: the prompt loop, then the
    batch for the month and year it returned. *)
Definition main (fuel : nat) (lines : list str) (w : World)
    : list ui_event * option (IO unit) :=
  let '(log, r) := get_user_input fuel lines in
  (log,
   match r with
   | Some (month, year) =>
     Some (generate_monthly_reports_docx w TARGET_NAME month year)
   | None => None
   end).

End Prompt.

(** A reader of plain decimal numerals, to run the prompt loop on. *)
Definition digit_value (c : char) : option Z :=
  if ((48 <=? c) && (c <=? 57))%N then Some (Z.of_N c - 48)%Z else None.

Fixpoint read_digits (acc : Z) (s : str) : option Z :=
  match s with
  | [] => Some acc
  | c :: s' =>
    match digit_value c with
    | Some d => read_digits (10 * acc + d)%Z s'
    | None => None
    end
  end.

Definition read_decimal (s : str) : option Z :=
  match s with
  | [] => None
  | _ :: _ => read_digits 0 s
  end.

(** ** Notions for the further properties *)

(** The date and the file name of day [i] of the batch. *)
Definition formatted_date (target_month target_year : Z) (i : nat) : str :=
  lit "Le " ++ two_digits (i + 1) ++ lit "/"
  ++ two_digits (Z.to_nat target_month) ++ lit "/"
  ++ year_digits target_year.

Definition report_name (target_month target_year : Z) (i : nat) : str :=
  lit "Rapport_d_activite_"
  ++ (two_digits (i + 1) ++ lit "-" ++ two_digits (Z.to_nat target_month)
      ++ lit "-" ++ year_digits target_year)
  ++ lit ".docx".

(** The documents a run saved, with their file names, in order. *)
Definition written (log : list event) : list (str * Document) :=
  flat_map (fun ev => match ev with
                      | Wrote f d => [(f, d)]
                      | _ => []
                      end) log.

(** A world in which every file operation succeeds. *)
Definition quiet_world : World := mkWorld sample_document (fun _ => None).

(** A world in which the template cannot be opened. *)
Definition no_template : World :=
  mkWorld sample_document
    (fun op => match op with
               | LoadTemplate => Some OtherException
               | _ => None
               end).

(** Highlighted, coloured text. *)
Definition marked_font : Font.t :=
  Font.set_highlight_color (Some 7%N)
    (Font.set_color_rgb (Some (255, 0, 0)%N) Font.fresh).

(** The events of one day of the batch when nothing fails. *)
Definition day_log (w : World) (target_month target_year : Z) (i : nat)
    : list event :=
  [Call (CopyTemplate i); Call (OpenCopy i); Call (SaveReport i);
   Wrote (report_name target_month target_year i)
         (process_all_text_locations (template w) DATE_PLACEHOLDER
            (formatted_date target_month target_year i)
            NAME_PLACEHOLDER_PREFIX TARGET_NAME);
   Call (RemoveTemp i);
   Print (MsgGenerated (report_name target_month target_year i)
                       (formatted_date target_month target_year i))].

(** The diagnostic the handlers print for an exception. *)
Definition exn_message (e : exn) : message :=
  match e with
  | FileNotFoundError => MsgTemplateNotFound
  | _ => MsgUnexpectedError
  end.

(** Every file operation of day [k] succeeds. *)
Definition day_succeeds (w : World) (k : nat) : Prop :=
  fails w (CopyTemplate k) = None /\ fails w (OpenCopy k) = None /\
  fails w (SaveReport k) = None /\ fails w (RemoveTemp k) = None.

(** A world in which saving the third report is the first failure. *)
Definition third_save_fails : World :=
  mkWorld merged_cell_document
    (fun op => match op with
               | SaveReport 2 => Some OtherException
               | _ => None
               end).

(** A line the month prompt turns down: not a number, or not a month. *)
Definition rejected_month (int : str -> option Z) (line : str) : Prop :=
  match int line with
  | Some m => ((1 <=? m) && (m <=? 12))%Z = false
  | None => True
  end.

(** Lines typed at the prompts: three refused tries, then February 2028. *)
Definition typed_lines : list str :=
  [lit "13"; lit "abc"; lit "2"; lit "1999"; lit "2"; lit "2028"].

(** * Properties *)

Example replace_two_runs :
  let bold_font := Font.set_bold (Some true) Font.fresh in
  replace_text_in_runs
    (mkParagraph [mkRun (lit "Le ") None bold_font;
                  mkRun (lit "01/09/2025") None Font.fresh])
    (lit "Le 01/09/2025") (lit "Le 03/11/2025")
  = (true, mkParagraph [mkRun (lit "Le 03/11/2025") None bold_font]).
Proof. reflexivity. Qed.

(** ** Strings *)

Lemma char_eqb_eq (a b : char) : char_eqb a b = true <-> a = b.
Proof. apply N.eqb_eq. Qed.

Lemma startswith_spec (p s : str) :
  startswith p s = true <-> exists post, s = p ++ post.
Proof.
  revert s; induction p as [|a p IH]; intros s; simpl.
  - split; [intros _; now exists s | reflexivity].
  - destruct s as [|b s].
    + split; [discriminate | intros [post H]; discriminate].
    + rewrite andb_true_iff, char_eqb_eq, IH. split.
      * intros [-> [post ->]]. now exists post.
      * intros [post H]. injection H as -> ->. split; [reflexivity | now exists post].
Qed.

Lemma occurs_at_0 (sub s : str) :
  occurs_at sub s 0 <-> startswith sub s = true.
Proof.
  rewrite startswith_spec. split.
  - intros (pre & post & -> & Hl). destruct pre; [|discriminate]. now exists post.
  - intros [post ->]. now exists [], post.
Qed.

Lemma occurs_at_S (sub : str) (a : char) (s : str) (i : nat) :
  occurs_at sub (a :: s) (S i) <-> occurs_at sub s i.
Proof.
  split.
  - intros (pre & post & H & Hl). destruct pre as [|b pre]; [discriminate|].
    injection H as -> ->. injection Hl as <-. now exists pre, post.
  - intros (pre & post & -> & <-). now exists (a :: pre), post.
Qed.

Lemma occurs_at_nil (sub : str) (i : nat) :
  occurs_at sub [] i -> sub = [] /\ i = 0.
Proof.
  intros (pre & post & H & <-). symmetry in H.
  apply app_eq_nil in H as [-> H]. apply app_eq_nil in H as [-> _]. now split.
Qed.

Lemma str_find_Some (sub s : str) (i : nat) :
  str_find sub s = Some i ->
  occurs_at sub s i /\ forall j, occurs_at sub s j -> i <= j.
Proof.
  revert i; induction s as [|a s IH]; intros i; simpl.
  - destruct (startswith sub []) eqn:E; [|discriminate].
    intros [= <-]. split; [now apply occurs_at_0 | lia].
  - destruct (startswith sub (a :: s)) eqn:E.
    + intros [= <-]. split; [now apply occurs_at_0 | lia].
    + destruct (str_find sub s) as [k|]; [|discriminate].
      intros [= <-]. destruct (IH k eq_refl) as [Ho Hmin]. split.
      * now apply occurs_at_S.
      * intros [|j] Hj.
        -- apply occurs_at_0 in Hj. congruence.
        -- apply occurs_at_S in Hj. apply Hmin in Hj. lia.
Qed.

Lemma str_find_None (sub s : str) :
  str_find sub s = None -> forall i, ~ occurs_at sub s i.
Proof.
  induction s as [|a s IH]; simpl.
  - destruct (startswith sub []) eqn:E; [discriminate|].
    intros _ i Hi. destruct (occurs_at_nil _ _ Hi) as [-> ->]. discriminate E.
  - destruct (startswith sub (a :: s)) eqn:E; [discriminate|].
    destruct (str_find sub s); [discriminate|]. intros _ [|i] Hi.
    + apply occurs_at_0 in Hi. congruence.
    + apply occurs_at_S in Hi. now apply (IH eq_refl i).
Qed.

Lemma str_find_complete (sub s : str) (i : nat) :
  occurs_at sub s i -> exists k, str_find sub s = Some k.
Proof.
  intros H. destruct (str_find sub s) as [k|] eqn:E; [now exists k|].
  exfalso. eapply str_find_None; eauto.
Qed.

Lemma nbsp_variant_length (old_text : str) :
  length (nbsp_variant old_text) = length old_text.
Proof. apply length_map. Qed.

(** ** The rebuild loop in closed form *)

Lemma add_styled_run_runs (p : Paragraph) (t : str) (st : style_ref)
    (f : Font.t) :
  add_styled_run p t st f = mkParagraph (runs p ++ [mkRun t st (copied f)]).
Proof.
  unfold add_styled_run, add_run, restyle_last; simpl.
  now rewrite removelast_last.
Qed.

Lemma iter_tl_skipn (n : nat) (l : list Run) :
  Nat.iter n (@tl Run) l = skipn n l.
Proof.
  induction n as [|n IH]; [reflexivity|].
  simpl Nat.iter. rewrite IH. clear IH.
  revert l; induction n as [|n IH]; intros [|a l]; simpl; try reflexivity.
  apply IH.
Qed.

Lemma clear_runs_nil (p : Paragraph) : clear_runs p = mkParagraph [].
Proof. unfold clear_runs. now rewrite iter_tl_skipn, skipn_all. Qed.

Lemma rebuild_step_pieces (s e : nat) (new_text : str) (st : LoopState)
    (r : Run) :
  rebuild_step s e new_text st (text r, style r, font r)
  = mkLoop
      (mkParagraph
         (runs (ls_paragraph st)
          ++ map recopy
               (pieces (current_pos st) (replacement_done st) s e new_text r)))
      (current_pos st + length (text r))
      (replacement_done st || overlaps (current_pos st) s e r).
Proof.
  destruct st as [[out] c d]. unfold rebuild_step, pieces, overlaps; simpl.
  destruct (Nat.max c s <? Nat.min (c + length (text r)) e).
  - destruct (firstn (Nat.max c s - c) (text r)) as [|a pre];
      destruct (skipn (Nat.min (c + length (text r)) e - c) (text r))
        as [|b post];
      destruct d; simpl; rewrite ?add_styled_run_runs; simpl;
      rewrite <- ?app_assoc, ?app_nil_r, ?orb_true_r; reflexivity.
  - rewrite add_styled_run_runs, orb_false_r. reflexivity.
Qed.

Lemma fold_rebuild_step (s e : nat) (new_text : str) (rs : list Run)
    (st : LoopState) :
  ls_paragraph
    (fold_left (rebuild_step s e new_text)
       (map (fun run => (text run, style run, font run)) rs) st)
  = mkParagraph
      (runs (ls_paragraph st)
       ++ map recopy
            (rebuild (current_pos st) (replacement_done st) s e new_text rs)).
Proof.
  revert st; induction rs as [|r rs IH]; intros st; cbn [map fold_left rebuild].
  - rewrite app_nil_r. now destruct (ls_paragraph st).
  - rewrite rebuild_step_pieces, IH. simpl. now rewrite map_app, <- app_assoc.
Qed.

Lemma replace_text_in_runs_eq (p : Paragraph) (old_text new_text : str) :
  replace_text_in_runs p old_text new_text
  = match locate old_text (full_text p) with
    | None => (false, p)
    | Some (s, e) =>
      (true, mkParagraph (map recopy (rebuild 0 false s e new_text (runs p))))
    end.
Proof.
  unfold replace_text_in_runs, locate, str_in, full_text, nbsp_variant.
  destruct (str_find old_text (join_runs (runs p))) as [i|] eqn:E; simpl.
  - rewrite E, fold_rebuild_step, clear_runs_nil. reflexivity.
  - destruct (str_find (str_replace_char SPACE NBSP old_text)
                (join_runs (runs p))) as [i|] eqn:E'; simpl.
    + rewrite E', fold_rebuild_step, clear_runs_nil. simpl.
      fold (nbsp_variant old_text). now rewrite nbsp_variant_length.
    + reflexivity.
Qed.

(** Copying the fonts changes neither the texts nor the number of runs. *)
Lemma join_runs_recopy (rs : list Run) : join_runs (map recopy rs) = join_runs rs.
Proof. unfold join_runs. now rewrite map_map. Qed.

Lemma count_empty_recopy (rs : list Run) :
  count_empty (map recopy rs) = count_empty rs.
Proof.
  unfold count_empty. induction rs as [|r rs IH]; [reflexivity|].
  cbn [map filter]. change (is_empty_run (recopy r)) with (is_empty_run r).
  destruct (is_empty_run r); cbn [length]; now rewrite IH.
Qed.

(** ** Characters and their formatting through the rebuild *)

Lemma attributed_app (a b : list Run) :
  attributed (a ++ b) = attributed a ++ attributed b.
Proof. apply flat_map_app. Qed.

Lemma attributed_cons (r : Run) (rs : list Run) :
  attributed (r :: rs) = attributed_run r ++ attributed rs.
Proof. reflexivity. Qed.

Lemma attributed_fragment (t : str) (r : Run) :
  attributed (fragment t r) = map (fun ch => (ch, style r, font r)) t.
Proof. destruct t; [reflexivity|]. simpl. now rewrite app_nil_r. Qed.

Lemma attributed_emit (t : str) (r : Run) :
  attributed [emit t r] = map (fun ch => (ch, style r, font r)) t.
Proof. simpl. now rewrite app_nil_r. Qed.

Lemma attributed_run_length (r : Run) :
  length (attributed_run r) = length (text r).
Proof. apply length_map. Qed.

Lemma attributed_text (rs : list Run) :
  map (fun x => fst (fst x)) (attributed rs) = join_runs rs.
Proof.
  induction rs as [|r rs IH]; [reflexivity|].
  rewrite attributed_cons, map_app, IH. unfold attributed_run, join_runs.
  simpl. f_equal. rewrite map_map. simpl. apply map_id.
Qed.

Lemma attributed_recopy (rs : list Run) :
  attributed (map recopy rs)
  = map (fun x => (fst (fst x), snd (fst x), copied (snd x))) (attributed rs).
Proof.
  induction rs as [|r rs IH]; [reflexivity|].
  cbn [map]. rewrite !attributed_cons, map_app, IH. f_equal.
  unfold attributed_run. simpl. now rewrite map_map.
Qed.

Lemma attributed_length (rs : list Run) :
  length (attributed rs) = length (join_runs rs).
Proof. now rewrite <- attributed_text, length_map. Qed.

Lemma join_runs_cons (r : Run) (rs : list Run) :
  join_runs (r :: rs) = text r ++ join_runs rs.
Proof. reflexivity. Qed.

Lemma join_runs_app (a b : list Run) :
  join_runs (a ++ b) = join_runs a ++ join_runs b.
Proof. unfold join_runs. now rewrite map_app, concat_app. Qed.

Lemma count_empty_app (a b : list Run) :
  count_empty (a ++ b) = count_empty a + count_empty b.
Proof. unfold count_empty. now rewrite filter_app, length_app. Qed.

Lemma count_empty_fragment (t : str) (r : Run) : count_empty (fragment t r) = 0.
Proof. now destruct t. Qed.

Lemma overlaps_nonempty (c s e : nat) (r : Run) :
  overlaps c s e r = true -> is_empty_run r = false.
Proof.
  unfold overlaps, is_empty_run. intros H. apply Nat.ltb_lt in H.
  destruct (text r); [simpl in H; lia | reflexivity].
Qed.

Lemma overlaps_true (c s e : nat) (r : Run) :
  overlaps c s e r = true <->
  c < c + length (text r) /\ c < e /\ s < c + length (text r) /\ s < e.
Proof. unfold overlaps. rewrite Nat.ltb_lt. lia. Qed.

(** Once the cursor is past [start_index] and the flag is set, only the
    part of each run beyond [end_index] survives. *)
Lemma pieces_done (c s e : nat) (new_text : str) (r : Run) :
  s < c ->
  attributed (pieces c true s e new_text r)
  = skipn (e - c) (attributed_run r).
Proof.
  intros Hc. unfold pieces. destruct (overlaps c s e r) eqn:E.
  - apply overlaps_true in E.
    replace (Nat.max c s - c) with 0 by lia. simpl.
    rewrite attributed_fragment. unfold attributed_run.
    rewrite <- skipn_map.
    destruct (Nat.le_gt_cases e (c + length (text r))) as [H|H].
    + now replace (Nat.min (c + length (text r)) e - c) with (e - c) by lia.
    + rewrite !skipn_all2; rewrite ?length_map; try lia. reflexivity.
  - assert (H : length (text r) = 0 \/ e <= c).
    { destruct (overlaps_true c s e r) as [_ H]. 
      destruct (Nat.eq_dec (length (text r)) 0); [now left|right].
      destruct (Nat.le_gt_cases e c); [assumption|].
      rewrite H in E; [discriminate|lia]. }
    simpl. rewrite app_nil_r. destruct H as [H|H].
    + unfold attributed_run. destruct (text r); [|discriminate].
      now rewrite skipn_nil.
    + now replace (e - c) with 0 by lia.
Qed.

Lemma count_empty_pieces_done (c s e : nat) (new_text : str) (r : Run) :
  count_empty (pieces c true s e new_text r) = count_empty [r].
Proof.
  unfold pieces. destruct (overlaps c s e r) eqn:E; [|reflexivity].
  rewrite !count_empty_app, !count_empty_fragment.
  unfold count_empty. simpl. now rewrite (overlaps_nonempty _ _ _ _ E).
Qed.

Lemma rebuild_done_attributed (s e : nat) (new_text : str) (rs : list Run) :
  forall c, s < c ->
  attributed (rebuild c true s e new_text rs) = skipn (e - c) (attributed rs).
Proof.
  induction rs as [|r rs IH]; intros c Hc; simpl rebuild.
  - now rewrite skipn_nil.
  - rewrite attributed_app, attributed_cons, skipn_app, pieces_done by assumption.
    rewrite IH by lia. rewrite attributed_run_length.
    now rewrite Nat.sub_add_distr.
Qed.

Lemma rebuild_done_count_empty (s e : nat) (new_text : str) (rs : list Run) :
  forall c, count_empty (rebuild c true s e new_text rs) = count_empty rs.
Proof.
  induction rs as [|r rs IH]; intros c; simpl rebuild; [reflexivity|].
  rewrite count_empty_app, count_empty_pieces_done, IH.
  now rewrite <- count_empty_app.
Qed.

Lemma offset_S (r : Run) (rs : list Run) (k : nat) :
  offset (r :: rs) (S k) = length (text r) + offset rs k.
Proof. unfold offset. simpl firstn. now rewrite join_runs_cons, length_app. Qed.

(** The decomposition of the rebuilt run list, for a non-empty range that
    lies inside the text: fragments of the runs before [start_index], one
    run with the new text formatted as the run that holds the character at
    [start_index], fragments of the runs from [end_index] on. *)
Lemma rebuild_decompose (s e : nat) (new_text : str) (rs : list Run) :
  forall c, c <= s -> s < e -> e <= c + length (join_runs rs) ->
  exists pre k r post,
    rebuild c false s e new_text rs = pre ++ [emit new_text r] ++ post /\
    attributed pre = firstn (s - c) (attributed rs) /\
    attributed post = skipn (e - c) (attributed rs) /\
    nth_error rs k = Some r /\
    c + offset rs k <= s < c + offset rs k + length (text r) /\
    count_empty pre + count_empty post = count_empty rs.
Proof.
  induction rs as [|r rs IH]; intros c Hc Hse Hlen.
  - simpl in Hlen. lia.
  - rewrite join_runs_cons, length_app in Hlen.
    destruct (Nat.le_gt_cases (c + length (text r)) s) as [Hr|Hr].
    + (* the run ends before the range *)
      assert (E : overlaps c s e r = false).
      { destruct (overlaps c s e r) eqn:E; [|reflexivity].
        apply overlaps_true in E. lia. }
      destruct (IH (c + length (text r))) as
        (pre & k & r' & post & Hreb & Hpre & Hpost & Hk & Hpos & Hcnt);
        try lia.
      exists (r :: pre), (S k), r', post. simpl rebuild.
      unfold pieces. rewrite E. simpl orb. rewrite Hreb.
      repeat split.
      * rewrite !attributed_cons, Hpre, firstn_app, attributed_run_length.
        rewrite (@firstn_all2 _ (s - c) (attributed_run r))
          by (rewrite attributed_run_length; lia).
        now rewrite Nat.sub_add_distr.
      * rewrite attributed_cons, Hpost, skipn_app, attributed_run_length.
        rewrite (@skipn_all2 _ (e - c) (attributed_run r))
          by (rewrite attributed_run_length; lia).
        now rewrite Nat.sub_add_distr.
      * assumption.
      * rewrite offset_S. lia.
      * rewrite offset_S. lia.
      * change (r :: pre) with ([r] ++ pre).
        change (r :: rs) with ([r] ++ rs).
        rewrite !count_empty_app. lia.
    + (* the run holds the character at [s] *)
      assert (E : overlaps c s e r = true) by (apply overlaps_true; lia).
      exists (fragment (firstn (s - c) (text r)) r), 0, r,
        (fragment (skipn (Nat.min (c + length (text r)) e - c) (text r)) r
         ++ rebuild (c + length (text r)) true s e new_text rs).
      simpl rebuild. unfold pieces. rewrite E. simpl orb.
      replace (Nat.max c s - c) with (s - c) by lia.
      repeat split.
      * now rewrite <- !app_assoc.
      * rewrite attributed_fragment, attributed_cons, firstn_app.
        rewrite attributed_run_length.
        replace (s - c - length (text r)) with 0 by lia.
        rewrite firstn_0, app_nil_r. unfold attributed_run.
        now rewrite firstn_map.
      * rewrite attributed_app, attributed_fragment, attributed_cons, skipn_app.
        rewrite rebuild_done_attributed by lia.
        rewrite attributed_run_length, Nat.sub_add_distr. f_equal.
        unfold attributed_run. rewrite <- skipn_map.
        destruct (Nat.le_gt_cases e (c + length (text r))) as [H|H].
        -- now replace (Nat.min (c + length (text r)) e - c) with (e - c) by lia.
        -- rewrite !skipn_all2; rewrite ?length_map; try lia. reflexivity.
      * unfold offset. simpl. lia.
      * unfold offset. simpl. lia.
      * rewrite count_empty_app, !count_empty_fragment.
        rewrite rebuild_done_count_empty.
        change (r :: rs) with ([r] ++ rs). rewrite count_empty_app.
        unfold count_empty at 2. simpl.
        now rewrite (overlaps_nonempty _ _ _ _ E).
Qed.



Lemma occurs_at_bound (sub s : str) (i : nat) :
  occurs_at sub s i -> i + length sub <= length s.
Proof. intros (pre & post & -> & <-). rewrite !length_app. lia. Qed.

Lemma occurs_at_split (sub s : str) (i : nat) :
  occurs_at sub s i ->
  s = firstn i s ++ sub ++ skipn (i + length sub) s.
Proof.
  intros (pre & post & -> & <-).
  rewrite firstn_app, Nat.sub_diag, firstn_all, firstn_0, app_nil_r.
  rewrite skipn_app, skipn_all2 by lia.
  replace (length pre + length sub - length pre) with (length sub) by lia.
  rewrite skipn_app, skipn_all, Nat.sub_diag. reflexivity.
Qed.

(** What [locate] returns: the leftmost literal occurrence, or, when there
    is no literal occurrence at all, the leftmost one of the variant. *)
Lemma locate_Some (old_text full : str) (s e : nat) :
  locate old_text full = Some (s, e) ->
  e = s + length old_text /\ e <= length full /\
  ((occurs_at old_text full s /\
    forall j, occurs_at old_text full j -> s <= j) \/
   ((forall j, ~ occurs_at old_text full j) /\
    occurs_at (nbsp_variant old_text) full s /\
    forall j, occurs_at (nbsp_variant old_text) full j -> s <= j)).
Proof.
  unfold locate. destruct (str_find old_text full) as [i|] eqn:E.
  - intros [= <- <-]. destruct (str_find_Some _ _ _ E) as [Ho Hmin].
    split; [reflexivity|]. split; [now apply occurs_at_bound|]. now left.
  - destruct (str_find (nbsp_variant old_text) full) as [i|] eqn:E';
      [|discriminate].
    intros [= <- <-]. destruct (str_find_Some _ _ _ E') as [Ho Hmin].
    split; [reflexivity|]. split.
    + rewrite <- (nbsp_variant_length old_text). now apply occurs_at_bound.
    + right. split; [now apply str_find_None|]. now split.
Qed.

Lemma locate_literal (old_text full : str) (i : nat) :
  occurs_at old_text full i ->
  exists s, locate old_text full = Some (s, s + length old_text) /\
            occurs_at old_text full s /\
            forall j, occurs_at old_text full j -> s <= j.
Proof.
  intros H. destruct (str_find_complete _ _ _ H) as [s E].
  exists s. unfold locate. rewrite E. split; [reflexivity|].
  now apply str_find_Some.
Qed.

Lemma locate_None (old_text full : str) :
  (forall i, ~ occurs_at old_text full i) ->
  (forall i, ~ occurs_at (nbsp_variant old_text) full i) ->
  locate old_text full = None.
Proof.
  intros H1 H2. unfold locate.
  destruct (str_find old_text full) as [i|] eqn:E.
  - destruct (H1 i). now apply str_find_Some.
  - destruct (str_find (nbsp_variant old_text) full) as [i|] eqn:E';
      [|reflexivity].
    destruct (H2 i). now apply str_find_Some.
Qed.

(** The characters of the rebuilt paragraph, with their formatting. *)
Lemma rebuild_attributed (s e : nat) (new_text : str) (rs : list Run) :
  s < e -> e <= length (join_runs rs) ->
  exists k r,
    nth_error rs k = Some r /\
    offset rs k <= s < offset rs k + length (text r) /\
    attributed (rebuild 0 false s e new_text rs)
    = firstn s (attributed rs)
      ++ map (fun ch => (ch, style r, font r)) new_text
      ++ skipn e (attributed rs).
Proof.
  intros Hse Hlen.
  destruct (rebuild_decompose s e new_text rs 0) as
    (pre & k & r & post & Hreb & Hpre & Hpost & Hk & Hpos & _); try lia.
  exists k, r. repeat split; try assumption; try lia.
  rewrite Hreb, !attributed_app, attributed_emit, Hpre, Hpost.
  now rewrite !Nat.sub_0_r.
Qed.

Lemma rebuild_text (s e : nat) (new_text : str) (rs : list Run) :
  s < e -> e <= length (join_runs rs) ->
  join_runs (rebuild 0 false s e new_text rs)
  = firstn s (join_runs rs) ++ new_text ++ skipn e (join_runs rs).
Proof.
  intros Hse Hlen.
  destruct (rebuild_attributed s e new_text rs Hse Hlen) as (k & r & _ & _ & H).
  rewrite <- !attributed_text, H, !map_app, firstn_map, skipn_map.
  rewrite map_map. simpl. now rewrite map_id.
Qed.

(** ** The replacer *)

Lemma replace_located (p : Paragraph) (old_text new_text : str) (s e : nat) :
  locate old_text (full_text p) = Some (s, e) ->
  replace_text_in_runs p old_text new_text
  = (true, mkParagraph (map recopy (rebuild 0 false s e new_text (runs p)))).
Proof. intros H. now rewrite replace_text_in_runs_eq, H. Qed.

Lemma locate_found (old_text full : str) :
  (exists i, occurs_at old_text full i) \/
  (exists i, occurs_at (nbsp_variant old_text) full i) ->
  exists s e, locate old_text full = Some (s, e).
Proof.
  intros H. destruct (locate old_text full) as [[s e]|] eqn:E;
    [now exists s, e|].
  unfold locate in E.
  destruct (str_find old_text full) eqn:E1; [discriminate|].
  destruct (str_find (nbsp_variant old_text) full) eqn:E2; [discriminate|].
  destruct H as [[i H]|[i H]]; exfalso.
  - exact (str_find_None _ _ E1 i H).
  - exact (str_find_None _ _ E2 i H).
Qed.

Lemma located_range (old_text full : str) (s e : nat) :
  old_text <> [] -> locate old_text full = Some (s, e) ->
  s < e /\ e <= length full.
Proof.
  intros Hne H. destruct (locate_Some _ _ _ _ H) as (-> & Hb & _).
  split; [|assumption]. destruct old_text; [congruence | simpl; lia].
Qed.

(** C1.  When the non-empty [old_text] occurs in the paragraph's
    concatenated text, literally or with its spaces turned into
    non-breaking spaces, [replace_text_in_runs] returns [True], and the
    concatenated text afterwards is the original one with the matched
    occurrence, the range the code located, replaced by [new_text]. *)
Theorem replace_text_in_runs_replaces_match
    (p : Paragraph) (old_text new_text : str) :
  old_text <> [] ->
  (exists i, occurs_at old_text (full_text p) i) \/
  (exists i, occurs_at (nbsp_variant old_text) (full_text p) i) ->
  exists pre matched post,
    full_text p = pre ++ matched ++ post /\
    (matched = old_text \/ matched = nbsp_variant old_text) /\
    locate old_text (full_text p)
    = Some (length pre, length pre + length matched) /\
    fst (replace_text_in_runs p old_text new_text) = true /\
    full_text (snd (replace_text_in_runs p old_text new_text))
    = pre ++ new_text ++ post.
Proof.
  intros Hne Hocc. destruct (locate_found _ _ Hocc) as (s & e & Hloc).
  destruct (located_range _ _ _ _ Hne Hloc) as [Hse He].
  rewrite (replace_located p _ new_text _ _ Hloc).
  unfold full_text in *. cbn [fst snd runs].
  rewrite join_runs_recopy, rebuild_text by assumption.
  destruct (locate_Some _ _ _ _ Hloc) as (-> & _ & [[Ho _]|(_ & Ho & _)]).
  - exists (firstn s (join_runs (runs p))), old_text,
      (skipn (s + length old_text) (join_runs (runs p))).
    rewrite length_firstn, Nat.min_l by lia.
    repeat split; auto. now apply occurs_at_split.
  - exists (firstn s (join_runs (runs p))), (nbsp_variant old_text),
      (skipn (s + length old_text) (join_runs (runs p))).
    rewrite length_firstn, Nat.min_l by lia. rewrite nbsp_variant_length.
    repeat split; auto.
    rewrite <- (nbsp_variant_length old_text). now apply occurs_at_split.
Qed.

Lemma replace_text_in_runs_replaces_match_witness :
  let p := date_paragraph in
  let old_text := DATE_PLACEHOLDER in
  let new_text := lit "Le 03/11/2025" in
  old_text <> [] /\
  ((exists i, occurs_at old_text (full_text p) i) \/
   (exists i, occurs_at (nbsp_variant old_text) (full_text p) i)) /\
  exists pre matched post,
    full_text p = pre ++ matched ++ post /\
    (matched = old_text \/ matched = nbsp_variant old_text) /\
    locate old_text (full_text p)
    = Some (length pre, length pre + length matched) /\
    fst (replace_text_in_runs p old_text new_text) = true /\
    full_text (snd (replace_text_in_runs p old_text new_text))
    = pre ++ new_text ++ post.
Proof.
  intros p old_text new_text.
  assert (Hne : old_text <> []) by discriminate.
  assert (Hocc : (exists i, occurs_at old_text (full_text p) i) \/
                 (exists i, occurs_at (nbsp_variant old_text) (full_text p) i)).
  { left. exists 0, [], []. split; reflexivity. }
  split; [exact Hne|]. split; [exact Hocc|].
  exact (replace_text_in_runs_replaces_match p old_text new_text Hne Hocc).
Defined.




(** On that paragraph the match starts in the run highlighted with index 0:
    the run of the replacement is styled after it, without the highlight,
    which the copy leaves out. *)
Example replacement_run_font :
  runs (snd (replace_text_in_runs highlighted_paragraph (lit "bc") (lit "x")))
  = [mkRun (lit "a") None Font.fresh; mkRun (lit "x") None Font.fresh;
     mkRun (lit "d") None Font.fresh].
Proof. reflexivity. Qed.

(** X19.  The characters of a paragraph after a successful call, with
    their formatting: those outside the matched range [[s, e)] are still
    there, in order, each with the style of its run and the copy
    [copy_font_style] makes of its run's font; those of the range are
    replaced by the characters of [new_text], formatted after the run that
    held the first matched character. *)
Theorem replace_formatting_copied
    (p : Paragraph) (old_text new_text : str) (s e : nat) :
  old_text <> [] ->
  locate old_text (full_text p) = Some (s, e) ->
  exists k r,
    nth_error (runs p) k = Some r /\
    offset (runs p) k <= s < offset (runs p) k + length (text r) /\
    attributed (runs (snd (replace_text_in_runs p old_text new_text)))
    = firstn s (attributed (map recopy (runs p)))
      ++ map (fun ch => (ch, style r, copied (font r))) new_text
      ++ skipn e (attributed (map recopy (runs p))).
Proof.
  intros Hne Hloc. destruct (located_range _ _ _ _ Hne Hloc) as [Hse He].
  rewrite (replace_located p _ new_text _ _ Hloc). cbn [snd runs].
  destruct (rebuild_attributed s e new_text (runs p) Hse He)
    as (k & r & Hk & Hpos & Hattr).
  exists k, r. split; [assumption|]. split; [assumption|].
  rewrite !attributed_recopy, Hattr, !map_app, firstn_map, skipn_map.
  now rewrite map_map.
Qed.

Lemma replace_formatting_copied_witness :
  let p := highlighted_paragraph in
  let old_text := lit "bc" in
  let new_text := lit "x" in
  old_text <> [] /\
  locate old_text (full_text p) = Some (1, 3) /\
  exists k r,
    nth_error (runs p) k = Some r /\
    offset (runs p) k <= 1 < offset (runs p) k + length (text r) /\
    attributed (runs (snd (replace_text_in_runs p old_text new_text)))
    = firstn 1 (attributed (map recopy (runs p)))
      ++ map (fun ch => (ch, style r, copied (font r))) new_text
      ++ skipn 3 (attributed (map recopy (runs p))).
Proof.
  intros p old_text new_text.
  assert (Hne : old_text <> []) by discriminate.
  assert (Hloc : locate old_text (full_text p) = Some (1, 3))
    by reflexivity.
  split; [exact Hne|]. split; [exact Hloc|].
  exact (replace_formatting_copied p old_text new_text 1 3 Hne Hloc).
Defined.

(** C3, at a failing input.  The paragraph holds ["ab"], highlighted with
    the colour index 0, then ["cd"] on an explicit baseline; ["bc"], across
    the run boundary, is replaced by ["x"].  The characters ['a'] and
    ['d'] lie outside the matched range [[1, 3)], yet ['a'] comes out
    without its highlight and ['d'] without its vertical alignment: the
    truthiness test drops the highlight of index 0, and assigning
    [False] to subscript and superscript of a fresh font sets nothing. *)
Theorem replace_drops_formatting :
  let p := highlighted_paragraph in
  let p' := snd (replace_text_in_runs p (lit "bc") (lit "x")) in
  locate (lit "bc") (full_text p) = Some (1, 3) /\
  nth_error (attributed (runs p)) 0
  = Some (97%N, None, auto_highlight_font) /\
  nth_error (attributed (runs p')) 0 = Some (97%N, None, Font.fresh) /\
  Font.highlight_color auto_highlight_font = Some 0%N /\
  Font.highlight_color Font.fresh = None /\
  nth_error (attributed (runs p)) 3 = Some (100%N, None, baseline_font) /\
  nth_error (attributed (runs p')) 2 = Some (100%N, None, Font.fresh) /\
  Font.subscript baseline_font = Some false /\
  Font.subscript Font.fresh = None.
Proof. repeat split. Qed.

(** C4.  When [old_text] occurs in the concatenated text neither literally
    nor in its non-breaking-space variant, the call returns [False] and the
    paragraph is the one it was given. *)
Theorem replace_miss_is_noop (p : Paragraph) (old_text new_text : str) :
  (forall i, ~ occurs_at old_text (full_text p) i) ->
  (forall i, ~ occurs_at (nbsp_variant old_text) (full_text p) i) ->
  replace_text_in_runs p old_text new_text = (false, p).
Proof.
  intros H1 H2.
  now rewrite replace_text_in_runs_eq, (locate_None _ _ H1 H2).
Qed.

Lemma replace_miss_is_noop_witness :
  let p := date_paragraph in
  let old_text := lit "Le 02/09/2025" in
  let new_text := lit "Le 03/11/2025" in
  (forall i, ~ occurs_at old_text (full_text p) i) /\
  (forall i, ~ occurs_at (nbsp_variant old_text) (full_text p) i) /\
  replace_text_in_runs p old_text new_text = (false, p).
Proof.
  intros p old_text new_text.
  assert (H1 : forall i, ~ occurs_at old_text (full_text p) i)
    by (apply str_find_None; reflexivity).
  assert (H2 : forall i, ~ occurs_at (nbsp_variant old_text) (full_text p) i)
    by (apply str_find_None; reflexivity).
  split; [exact H1|]. split; [exact H2|].
  exact (replace_miss_is_noop p old_text new_text H1 H2).
Defined.

(** C7.  A successful call creates no zero-length run out of an empty
    prefix or suffix fragment: the zero-length runs of the result are as
    many as those of the original paragraph, plus the run of the
    replacement itself when [new_text] is empty. *)
Theorem no_empty_fragment_runs
    (p : Paragraph) (old_text new_text : str) (s e : nat) :
  old_text <> [] ->
  locate old_text (full_text p) = Some (s, e) ->
  count_empty (runs (snd (replace_text_in_runs p old_text new_text)))
  = count_empty (runs p)
    + match new_text with [] => 1 | _ :: _ => 0 end.
Proof.
  intros Hne Hloc. destruct (located_range _ _ _ _ Hne Hloc) as [Hse He].
  rewrite (replace_located p _ new_text _ _ Hloc).
  unfold full_text in *. cbn [snd runs].
  destruct (rebuild_decompose s e new_text (runs p) 0) as
    (pre & k & r & post & Hreb & _ & _ & _ & _ & Hcnt); try lia.
  rewrite count_empty_recopy, Hreb, !count_empty_app, <- Hcnt.
  unfold count_empty at 2. simpl. destruct new_text; simpl; lia.
Qed.

Lemma no_empty_fragment_runs_witness :
  let p := date_paragraph in
  let new_text := lit "Le 03/11/2025" in
  DATE_PLACEHOLDER <> [] /\
  locate DATE_PLACEHOLDER (full_text p) = Some (0, 13) /\
  count_empty (runs (snd (replace_text_in_runs p DATE_PLACEHOLDER new_text)))
  = count_empty (runs p) + match new_text with [] => 1 | _ :: _ => 0 end.
Proof.
  intros p new_text.
  assert (Hne : DATE_PLACEHOLDER <> []) by discriminate.
  assert (Hloc : locate DATE_PLACEHOLDER (full_text p) = Some (0, 13))
    by reflexivity.
  split; [exact Hne|]. split; [exact Hloc|].
  exact (no_empty_fragment_runs p DATE_PLACEHOLDER new_text 0 13 Hne Hloc).
Defined.

(** With an empty [new_text] the replacement run itself is a zero-length
    run: deleting the date leaves one run, standing where the match began. *)
Example empty_replacement_run :
  replace_text_in_runs date_paragraph DATE_PLACEHOLDER []
  = (true, mkParagraph [mkRun [] None bold_font]).
Proof. reflexivity. Qed.

(** C9.  When [old_text] occurs literally, the occurrence that is replaced
    is the leftmost literal one, whether or not the non-breaking-space
    variant occurs too; the text after it is kept, so every occurrence that
    starts at or after the end of the replaced one is still there. *)
Theorem replace_leftmost_literal
    (p : Paragraph) (old_text new_text : str) (i : nat) :
  old_text <> [] ->
  occurs_at old_text (full_text p) i ->
  exists pre post,
    full_text p = pre ++ old_text ++ post /\
    (forall j, occurs_at old_text (full_text p) j -> length pre <= j) /\
    fst (replace_text_in_runs p old_text new_text) = true /\
    full_text (snd (replace_text_in_runs p old_text new_text))
    = pre ++ new_text ++ post /\
    forall j, occurs_at old_text (full_text p) j ->
              length pre + length old_text <= j ->
              occurs_at old_text
                (full_text (snd (replace_text_in_runs p old_text new_text)))
                (j - length old_text + length new_text).
Proof.
  intros Hne Hi.
  destruct (locate_literal _ _ _ Hi) as (s & Hloc & Ho & Hmin).
  destruct (located_range _ _ _ _ Hne Hloc) as [Hse He].
  rewrite (replace_located p _ new_text _ _ Hloc).
  unfold full_text in *. cbn [fst snd runs].
  rewrite join_runs_recopy, rebuild_text by assumption.
  set (t := join_runs (runs p)) in *.
  assert (Hs : length (firstn s t) = s)
    by (rewrite length_firstn; lia).
  exists (firstn s t), (skipn (s + length old_text) t). rewrite Hs.
  split; [now apply occurs_at_split|]. split; [assumption|].
  split; [reflexivity|]. split; [reflexivity|].
  intros j (pre' & post' & Ht & Hl) Hj.
  exists (firstn s t ++ new_text
          ++ firstn (j - (s + length old_text)) (skipn (s + length old_text) t)),
    post'.
  split.
  - rewrite <- !app_assoc. do 2 f_equal.
    rewrite <- (firstn_skipn (j - (s + length old_text))
                  (skipn (s + length old_text) t)) at 1.
    f_equal. rewrite skipn_skipn.
    replace (j - (s + length old_text) + (s + length old_text)) with j by lia.
    rewrite Ht. rewrite skipn_app, skipn_all2 by lia.
    now rewrite Hl, Nat.sub_diag.
  - rewrite !length_app, Hs, length_firstn, length_skipn.
    assert (j + length old_text <= length t).
    { rewrite Ht, !length_app. lia. }
    lia.
Qed.

Lemma replace_leftmost_literal_witness :
  let p := repeated_paragraph in
  let old_text := lit "x y" in
  let new_text := lit "z" in
  old_text <> [] /\
  occurs_at old_text (full_text p) 10 /\
  exists pre post,
    full_text p = pre ++ old_text ++ post /\
    (forall j, occurs_at old_text (full_text p) j -> length pre <= j) /\
    fst (replace_text_in_runs p old_text new_text) = true /\
    full_text (snd (replace_text_in_runs p old_text new_text))
    = pre ++ new_text ++ post /\
    forall j, occurs_at old_text (full_text p) j ->
              length pre + length old_text <= j ->
              occurs_at old_text
                (full_text (snd (replace_text_in_runs p old_text new_text)))
                (j - length old_text + length new_text).
Proof.
  intros p old_text new_text.
  assert (Hne : old_text <> []) by discriminate.
  assert (Hocc : occurs_at old_text (full_text p) 10).
  { exists (firstn 10 (full_text p)), []. split; reflexivity. }
  split; [exact Hne|]. split; [exact Hocc|].
  exact (replace_leftmost_literal p old_text new_text 10 Hne Hocc).
Defined.

(** On that paragraph the variant comes first, and it is the first literal
    occurrence, five characters in, that is replaced. *)
Example literal_before_variant :
  str_find (nbsp_variant (lit "x y")) (full_text repeated_paragraph) = Some 0 /\
  locate (lit "x y") (full_text repeated_paragraph) = Some (5, 8) /\
  full_text (snd (replace_text_in_runs repeated_paragraph (lit "x y") (lit "z")))
  = lit "x" ++ [NBSP] ++ lit "y, z, x y".
Proof. repeat split. Qed.

(** ** The document walk *)

Lemma dot_star_spec (s : str) :
  exists tail,
    s = dot_star s ++ tail /\ ~ In LF (dot_star s) /\
    (tail = [] \/ exists tl, tail = LF :: tl).
Proof.
  induction s as [|c s (tail & Hs & Hin & Htail)]; simpl.
  - exists []. repeat split; auto.
  - destruct (char_eqb c LF) eqn:E.
    + apply char_eqb_eq in E. subst c. exists (LF :: s).
      repeat split; auto. right. now exists s.
    + exists tail. simpl. repeat split; auto.
      * now f_equal.
      * intros [H|H]; [|now apply Hin].
        subst c. unfold char_eqb in E. now rewrite N.eqb_refl in E.
Qed.

Lemma lstrip_suffix (s : str) : exists ws, s = ws ++ lstrip s.
Proof.
  induction s as [|c s [ws IH]]; simpl.
  - now exists [].
  - destruct (is_space c).
    + exists (c :: ws). simpl. now f_equal.
    + now exists [].
Qed.

Lemma lstrip_app (u v : str) :
  lstrip (u ++ v)
  = match lstrip u with [] => lstrip v | _ :: _ => lstrip u ++ v end.
Proof.
  induction u as [|c u IH]; simpl.
  - reflexivity.
  - destruct (is_space c); [apply IH | reflexivity].
Qed.

Lemma rstrip_prefix (s : str) : exists ws, s = rstrip s ++ ws.
Proof.
  destruct (lstrip_suffix (rev s)) as [ws H]. exists (rev ws).
  unfold rstrip. rewrite <- rev_app_distr, <- H. now rewrite rev_involutive.
Qed.

Lemma rstrip_app (p r : str) :
  rstrip p = p -> rstrip (p ++ r) = p ++ rstrip r.
Proof.
  intros Hp. unfold rstrip in *. rewrite rev_app_distr, lstrip_app.
  destruct (lstrip (rev r)) as [|c l] eqn:E.
  - simpl. now rewrite Hp, app_nil_r.
  - rewrite rev_app_distr, rev_involutive. reflexivity.
Qed.

Lemma strip_line (name_prefix rest : str) :
  lstrip name_prefix = name_prefix -> rstrip name_prefix = name_prefix ->
  name_prefix <> [] ->
  strip (name_prefix ++ rest) = name_prefix ++ rstrip rest.
Proof.
  intros Hl Hr Hne. unfold strip. rewrite lstrip_app, Hl.
  destruct name_prefix as [|c q]; [congruence|]. now apply rstrip_app.
Qed.

Lemma nth_error_map_at {A} (f : A -> A) (l : list A) :
  forall k j,
  nth_error (map_at k f l) j
  = if j =? k then option_map f (nth_error l j) else nth_error l j.
Proof.
  induction l as [|x l IH]; intros k j.
  - replace (nth_error (map_at k f []) j) with (@None A) by now destruct j.
    replace (nth_error [] j) with (@None A) by now destruct j.
    now destruct (j =? k).
  - destruct k as [|k]; destruct j as [|j]; try reflexivity.
    simpl. apply IH.
Qed.

(** Rewriting positions one after the other applies the function to each
    element as many times as its position is listed. *)
Lemma fold_map_at {A} (f : A -> A) (ks : list nat) :
  forall l j,
  nth_error (fold_left (fun store k => map_at k f store) ks l) j
  = option_map (Nat.iter (count_occ Nat.eq_dec ks j) f) (nth_error l j).
Proof.
  induction ks as [|k ks IH]; intros l j; simpl.
  - now destruct (nth_error l j).
  - rewrite IH, nth_error_map_at.
    destruct (Nat.eq_dec k j) as [->|Hneq].
    + rewrite Nat.eqb_refl. destruct (nth_error l j); [|reflexivity].
      simpl. f_equal. symmetry. apply Nat.iter_succ_r.
    + destruct (Nat.eqb_spec j k) as [->|_]; [now destruct Hneq|].
      reflexivity.
Qed.

Lemma process_rows_flat (step : Paragraph -> Paragraph) (rws : list Row) :
  forall store,
  fold_left (process_row step) rws store
  = fold_left (fun store k => map_at k (process_cell step) store)
              (flat_map cells rws) store.
Proof.
  induction rws as [|row rws IH]; intros store; [reflexivity|].
  simpl. rewrite fold_left_app. apply IH.
Qed.

Lemma iter_process_cell (step : Paragraph -> Paragraph) (n : nat)
    (cell : Cell) :
  Nat.iter n (process_cell step) cell
  = mkCell (map (Nat.iter n step) (cell_paragraphs cell)).
Proof.
  induction n as [|n IH].
  - simpl. rewrite map_id. now destruct cell.
  - simpl. rewrite IH. unfold process_cell. simpl. now rewrite map_map.
Qed.

(** A cell of a table after the walk: the step has been applied to each of
    its paragraphs once for every listing of the cell in a row. *)
Lemma process_table_cell (step : Paragraph -> Paragraph) (table : Table)
    (k : nat) (cell : Cell) :
  nth_error (table_cells table) k = Some cell ->
  nth_error (table_cells (process_table step table)) k
  = Some (mkCell (map (Nat.iter (visits table k) step)
                      (cell_paragraphs cell))).
Proof.
  intros H. unfold process_table, visits. simpl.
  rewrite process_rows_flat, fold_map_at, H. simpl.
  now rewrite iter_process_cell.
Qed.

Lemma occurs_at_app_prefix (a b s : str) (i : nat) :
  occurs_at (a ++ b) s i -> occurs_at a s i.
Proof.
  intros (pre & post & -> & <-). exists pre, (b ++ post).
  now rewrite <- app_assoc.
Qed.

(** The trimmed line is found where the search found the prefix. *)
Lemma locate_line (name_prefix rest' full : str) (i : nat) :
  name_prefix <> [] ->
  occurs_at name_prefix full i ->
  (forall j, occurs_at name_prefix full j -> i <= j) ->
  (exists ws, skipn (i + length name_prefix) full = rest' ++ ws) ->
  locate (name_prefix ++ rest') full
  = Some (i, i + length (name_prefix ++ rest')).
Proof.
  intros Hne Ho Hmin [ws Hws].
  assert (Hocc : occurs_at (name_prefix ++ rest') full i).
  { exists (firstn i full), ws.
    pose proof (occurs_at_bound _ _ _ Ho).
    split; [|rewrite length_firstn; lia].
    rewrite (occurs_at_split _ _ _ Ho) at 1. rewrite Hws.
    now rewrite <- !app_assoc. }
  destruct (locate_literal _ _ _ Hocc) as (s & Hloc & Hs & Hsmin).
  rewrite Hloc. pose proof (Hsmin _ Hocc).
  pose proof (Hmin _ (occurs_at_app_prefix _ _ _ _ Hs)).
  replace s with i by lia. reflexivity.
Qed.

Lemma str_find_leftmost (sub s : str) (i : nat) :
  occurs_at sub s i -> (forall j, occurs_at sub s j -> i <= j) ->
  str_find sub s = Some i.
Proof.
  intros Ho Hmin. destruct (str_find_complete _ _ _ Ho) as [k E].
  destruct (str_find_Some _ _ _ E) as [Hk Hkmin].
  pose proof (Hmin _ Hk). pose proof (Hkmin _ Ho).
  rewrite E. f_equal. lia.
Qed.

Lemma process_paragraph_eq (date_placeholder new_date_str name_prefix
    new_name : str) (p : Paragraph) :
  process_paragraph date_placeholder new_date_str name_prefix new_name p
  = let p1 := snd (replace_text_in_runs p date_placeholder new_date_str) in
    match search_name_line name_prefix (full_text p1) with
    | Some m =>
      snd (replace_text_in_runs p1 (strip m)
             (name_prefix ++ [SPACE] ++ new_name))
    | None => p1
    end.
Proof.
  unfold process_paragraph.
  now destruct (replace_text_in_runs p date_placeholder new_date_str).
Qed.

(** C5, amended.  Every top-level paragraph goes through the step once;
    every paragraph of a table cell goes through it once for each listing
    of its cell in a row, so a merged cell's paragraphs go through it once
    per grid position the cell covers.  In the step the paragraph's text,
    as the date substitution left it, is searched for the first occurrence
    of the prefix; the match runs from there to the end of that line (up to
    the first line feed after the prefix, or to the end of the text when
    there is none), whitespace is trimmed from both ends of it, and the
    replacer is called to put the prefix, one space and the new name in
    its place.  When the prefix is non-empty and neither starts nor ends
    with whitespace, the trimming is a trailing one and the replaced
    occurrence is the matched one. *)
Theorem name_line_substitution (document : Document)
    (date_placeholder new_date_str name_prefix new_name : str)
    (p : Paragraph) (i : nat) :
  let step :=
    process_paragraph date_placeholder new_date_str name_prefix new_name in
  let document' :=
    process_all_text_locations document date_placeholder new_date_str
      name_prefix new_name in
  let p1 := snd (replace_text_in_runs p date_placeholder new_date_str) in
  let t := full_text p1 in
  occurs_at name_prefix t i ->
  (forall j, occurs_at name_prefix t j -> i <= j) ->
  (paragraphs document' = map step (paragraphs document) /\
   tables document' = map (process_table step) (tables document) /\
   forall table k cell,
     nth_error (table_cells table) k = Some cell ->
     rows (process_table step table) = rows table /\
     nth_error (table_cells (process_table step table)) k
     = Some (mkCell (map (Nat.iter (visits table k) step)
                         (cell_paragraphs cell)))) /\
  exists rest tail,
    skipn (i + length name_prefix) t = rest ++ tail /\
    ~ In LF rest /\
    (tail = [] \/ exists tl, tail = LF :: tl) /\
    step p
    = snd (replace_text_in_runs p1 (strip (name_prefix ++ rest))
             (name_prefix ++ [SPACE] ++ new_name)) /\
    (lstrip name_prefix = name_prefix -> rstrip name_prefix = name_prefix ->
     name_prefix <> [] ->
     strip (name_prefix ++ rest) = name_prefix ++ rstrip rest /\
     full_text (step p)
     = firstn i t ++ (name_prefix ++ [SPACE] ++ new_name)
       ++ skipn (i + length (name_prefix ++ rstrip rest)) t).
Proof.
  intros step document' p1 t Ho Hmin. split.
  { split; [reflexivity|]. split; [reflexivity|].
    intros table k cell Hk. split; [reflexivity|].
    now apply process_table_cell. }
  destruct (dot_star_spec (skipn (i + length name_prefix) t))
    as (tail & Hsplit & Hin & Htail).
  set (rest := dot_star (skipn (i + length name_prefix) t)) in *.
  exists rest, tail.
  assert (Hstep : step p
    = snd (replace_text_in_runs p1 (strip (name_prefix ++ rest))
             (name_prefix ++ [SPACE] ++ new_name))).
  { unfold step. rewrite process_paragraph_eq. fold p1. cbv zeta.
    unfold search_name_line. fold t.
    now rewrite (str_find_leftmost _ _ _ Ho Hmin). }
  split; [assumption|]. split; [assumption|]. split; [assumption|].
  split; [assumption|]. intros Hl Hr Hne0.
  split; [now apply strip_line|].
  rewrite Hstep, (strip_line _ _ Hl Hr Hne0).
  destruct (rstrip_prefix rest) as [ws Hws].
  assert (Hloc : locate (name_prefix ++ rstrip rest) (full_text p1)
                 = Some (i, i + length (name_prefix ++ rstrip rest))).
  { apply locate_line; try assumption.
    exists (ws ++ tail). fold t. rewrite Hsplit, Hws at 1.
    now rewrite <- app_assoc. }
  assert (Hne : name_prefix ++ rstrip rest <> []).
  { destruct name_prefix; [congruence | discriminate]. }
  destruct (located_range _ _ _ _ Hne Hloc) as [Hse He].
  rewrite (replace_located p1 _ _ _ _ Hloc).
  unfold full_text at 1. cbn [snd runs].
  now rewrite join_runs_recopy, rebuild_text.
Qed.

Lemma name_line_substitution_witness :
  let new_date_str := lit "Le 03/11/2025" in
  let step :=
    process_paragraph DATE_PLACEHOLDER new_date_str NAME_PLACEHOLDER_PREFIX
      TARGET_NAME in
  let document' :=
    process_all_text_locations merged_cell_document DATE_PLACEHOLDER
      new_date_str NAME_PLACEHOLDER_PREFIX TARGET_NAME in
  let p1 :=
    snd (replace_text_in_runs dated_name_paragraph DATE_PLACEHOLDER
           new_date_str) in
  let t := full_text p1 in
  occurs_at NAME_PLACEHOLDER_PREFIX t 0 /\
  (forall j, occurs_at NAME_PLACEHOLDER_PREFIX t j -> 0 <= j) /\
  (paragraphs document' = map step (paragraphs merged_cell_document) /\
   tables document'
   = map (process_table step) (tables merged_cell_document) /\
   forall table k cell,
     nth_error (table_cells table) k = Some cell ->
     rows (process_table step table) = rows table /\
     nth_error (table_cells (process_table step table)) k
     = Some (mkCell (map (Nat.iter (visits table k) step)
                         (cell_paragraphs cell)))) /\
  exists rest tail,
    skipn (0 + length NAME_PLACEHOLDER_PREFIX) t = rest ++ tail /\
    ~ In LF rest /\
    (tail = [] \/ exists tl, tail = LF :: tl) /\
    step dated_name_paragraph
    = snd (replace_text_in_runs p1 (strip (NAME_PLACEHOLDER_PREFIX ++ rest))
             (NAME_PLACEHOLDER_PREFIX ++ [SPACE] ++ TARGET_NAME)) /\
    (lstrip NAME_PLACEHOLDER_PREFIX = NAME_PLACEHOLDER_PREFIX ->
     rstrip NAME_PLACEHOLDER_PREFIX = NAME_PLACEHOLDER_PREFIX ->
     NAME_PLACEHOLDER_PREFIX <> [] ->
     strip (NAME_PLACEHOLDER_PREFIX ++ rest)
     = NAME_PLACEHOLDER_PREFIX ++ rstrip rest /\
     full_text (step dated_name_paragraph)
     = firstn 0 t ++ (NAME_PLACEHOLDER_PREFIX ++ [SPACE] ++ TARGET_NAME)
       ++ skipn (0 + length (NAME_PLACEHOLDER_PREFIX ++ rstrip rest)) t).
Proof.
  intros new_date_str step document' p1 t.
  assert (H1 : occurs_at NAME_PLACEHOLDER_PREFIX t 0).
  { exists [], (lit " Le 03/11/2025"). split; reflexivity. }
  assert (H2 : forall j, occurs_at NAME_PLACEHOLDER_PREFIX t j -> 0 <= j).
  { intros j _. apply Nat.le_0_l. }
  split; [exact H1|]. split; [exact H2|].
  exact (name_line_substitution merged_cell_document DATE_PLACEHOLDER
           new_date_str NAME_PLACEHOLDER_PREFIX TARGET_NAME
           dated_name_paragraph 0 H1 H2).
Defined.

(** C5, as stated, fails three ways.  On a name line that holds a line
    break the code replaces the prefix's line only, where the claim has the
    match run to the end of the paragraph's text.  For a prefix that starts
    with a space the code trims the leading space of the match too, so the
    text before the name line keeps it and the result differs from a
    trailing trim.  And the paragraph of a cell merged over two columns
    goes through the step twice: with an empty new name the prefix ends up
    followed by two spaces, not one. *)
Lemma name_line_not_as_claimed :
  let new_date_str := lit "Le 03/11/2025" in
  (full_text
     (process_paragraph DATE_PLACEHOLDER new_date_str NAME_PLACEHOLDER_PREFIX
        TARGET_NAME two_line_name_paragraph)
   = NAME_PLACEHOLDER_PREFIX ++ lit " " ++ [LF] ++ lit "Dupont" /\
   full_text
     (spec_process_paragraph DATE_PLACEHOLDER new_date_str
        NAME_PLACEHOLDER_PREFIX TARGET_NAME two_line_name_paragraph)
   = NAME_PLACEHOLDER_PREFIX ++ lit " ") /\
  (full_text
     (process_paragraph DATE_PLACEHOLDER new_date_str (lit " Profil:")
        TARGET_NAME indented_name_paragraph)
   = lit "x  Profil: " /\
   full_text
     (spec_process_paragraph DATE_PLACEHOLDER new_date_str (lit " Profil:")
        TARGET_NAME indented_name_paragraph)
   = lit "x Profil: ") /\
  map (fun table =>
         map (fun cell => map full_text (cell_paragraphs cell))
             (table_cells table))
      (tables
         (process_all_text_locations merged_cell_document DATE_PLACEHOLDER
            new_date_str NAME_PLACEHOLDER_PREFIX TARGET_NAME))
  = [[[NAME_PLACEHOLDER_PREFIX ++ lit "  "]]].
Proof. repeat split. Qed.

(** C10.  The name-line search of a paragraph reads the text in which the
    date placeholder has already been replaced: when the placeholder is
    found at [[s, e)], the searched text is the original one with that
    range replaced by the new date, and the value the replacer is then
    given comes from that text. *)
Theorem name_search_after_date_substitution
    (date_placeholder new_date_str name_prefix new_name : str)
    (p : Paragraph) (s e : nat) :
  date_placeholder <> [] ->
  locate date_placeholder (full_text p) = Some (s, e) ->
  let p1 := snd (replace_text_in_runs p date_placeholder new_date_str) in
  let t1 := firstn s (full_text p) ++ new_date_str ++ skipn e (full_text p) in
  full_text p1 = t1 /\
  process_paragraph date_placeholder new_date_str name_prefix new_name p
  = match search_name_line name_prefix t1 with
    | Some m =>
      snd (replace_text_in_runs p1 (strip m)
             (name_prefix ++ [SPACE] ++ new_name))
    | None => p1
    end.
Proof.
  intros Hne Hloc p1 t1.
  destruct (located_range _ _ _ _ Hne Hloc) as [Hse He].
  assert (Ht : full_text p1 = t1).
  { unfold p1, t1. rewrite (replace_located p _ new_date_str _ _ Hloc).
    unfold full_text in *. cbn [snd runs]. rewrite join_runs_recopy.
    now apply rebuild_text. }
  split; [exact Ht|].
  rewrite process_paragraph_eq. fold p1. cbv zeta. now rewrite Ht.
Qed.

Lemma name_search_after_date_substitution_witness :
  let new_date_str := lit "Le 03/11/2025" in
  let p := dated_name_paragraph in
  let p1 := snd (replace_text_in_runs p DATE_PLACEHOLDER new_date_str) in
  let t1 := firstn 9 (full_text p) ++ new_date_str
            ++ skipn 22 (full_text p) in
  DATE_PLACEHOLDER <> [] /\
  locate DATE_PLACEHOLDER (full_text p) = Some (9, 22) /\
  full_text p1 = t1 /\
  process_paragraph DATE_PLACEHOLDER new_date_str NAME_PLACEHOLDER_PREFIX
    TARGET_NAME p
  = match search_name_line NAME_PLACEHOLDER_PREFIX t1 with
    | Some m =>
      snd (replace_text_in_runs p1 (strip m)
             (NAME_PLACEHOLDER_PREFIX ++ [SPACE] ++ TARGET_NAME))
    | None => p1
    end.
Proof.
  intros new_date_str p p1 t1.
  assert (H1 : DATE_PLACEHOLDER <> []) by discriminate.
  assert (H2 : locate DATE_PLACEHOLDER (full_text p) = Some (9, 22))
    by reflexivity.
  split; [exact H1|]. split; [exact H2|].
  exact (name_search_after_date_substitution DATE_PLACEHOLDER new_date_str
           NAME_PLACEHOLDER_PREFIX TARGET_NAME p 9 22 H1 H2).
Defined.

(** The order shows on a name line that holds the date placeholder: the
    line that is replaced is the one with the new date in it, which the
    original text does not contain. *)
Example name_line_holds_new_date :
  let new_date_str := lit "Le 03/11/2025" in
  let p1 :=
    snd (replace_text_in_runs dated_name_paragraph DATE_PLACEHOLDER
           new_date_str) in
  search_name_line NAME_PLACEHOLDER_PREFIX (full_text p1)
  = Some (NAME_PLACEHOLDER_PREFIX ++ lit " Le 03/11/2025") /\
  str_in (NAME_PLACEHOLDER_PREFIX ++ lit " Le 03/11/2025")
         (full_text dated_name_paragraph) = false /\
  full_text
    (process_paragraph DATE_PLACEHOLDER new_date_str NAME_PLACEHOLDER_PREFIX
       TARGET_NAME dated_name_paragraph)
  = NAME_PLACEHOLDER_PREFIX ++ lit " ".
Proof. repeat split. Qed.

(** A paragraph without the prefix is left as the date call returned it. *)
Lemma name_step_skipped (date_placeholder new_date_str name_prefix
    new_name : str) (p : Paragraph) :
  let p1 := snd (replace_text_in_runs p date_placeholder new_date_str) in
  (forall i, ~ occurs_at name_prefix (full_text p1) i) ->
  process_paragraph date_placeholder new_date_str name_prefix new_name p = p1.
Proof.
  intros p1 H. rewrite process_paragraph_eq. fold p1. cbv zeta.
  unfold search_name_line.
  destruct (str_find name_prefix (full_text p1)) as [i|] eqn:E;
    [|reflexivity].
  destruct (H i). now apply str_find_Some.
Qed.

(** A name line loses its name when the new name is empty: the prefix and
    one space remain. *)
Example name_removed :
  full_text
    (process_paragraph DATE_PLACEHOLDER (lit "Le 03/11/2025")
       NAME_PLACEHOLDER_PREFIX TARGET_NAME
       (mkParagraph
          [mkRun (NAME_PLACEHOLDER_PREFIX ++ lit " Jean Dupont") None
                 Font.fresh]))
  = NAME_PLACEHOLDER_PREFIX ++ lit " ".
Proof. reflexivity. Qed.

(** ** The batch loop *)

Lemma io_op_eqb_eq (a b : io_op) : io_op_eqb a b = true <-> a = b.
Proof.
  destruct a, b; simpl; rewrite ?Nat.eqb_eq;
    split; intros H; try discriminate; try reflexivity;
    try (now f_equal); now injection H.
Qed.

Lemma called_In (op : io_op) (log : list event) :
  called op log = true <-> In (Call op) log.
Proof.
  unfold called. rewrite existsb_exists. split.
  - intros ([m|op'|f d] & Hin & H); try discriminate.
    apply io_op_eqb_eq in H. now subst.
  - intros H. exists (Call op). split; [assumption|]. now apply io_op_eqb_eq.
Qed.

Lemma not_called (op : io_op) (log : list event) :
  ~ In (Call op) log -> called op log = false.
Proof.
  intros H. destruct (called op log) eqn:E; [|reflexivity].
  now apply called_In in E.
Qed.

Lemma bind_log {A B} (m : IO A) (k : A -> IO B) (ev : event) :
  In ev (fst (bind m k)) ->
  In ev (fst m) \/ exists a, snd m = inr a /\ In ev (fst (k a)).
Proof.
  destruct m as [log [e|a]]; simpl; [now left|].
  destruct (k a) as [log' r] eqn:E. simpl. rewrite in_app_iff.
  intros [H|H]; [now left|]. right. exists a. rewrite E. now split.
Qed.

Lemma bind_raises {A B} (m : IO A) (k : A -> IO B) :
  (exists e, snd m = inl e) \/ (forall a, exists e, snd (k a) = inl e) ->
  exists e, snd (bind m k) = inl e.
Proof.
  destruct m as [log [e|a]]; simpl.
  - intros _. now exists e.
  - intros [[e H]|H]; [discriminate|].
    destruct (H a) as [e He]. destruct (k a) as [log' r]. simpl in *.
    now exists e.
Qed.

Lemma perform_log (w : World) (op : io_op) (ev : event) :
  In ev (fst (perform w op)) -> ev = Call op.
Proof.
  unfold perform. simpl. destruct (fails w op); simpl; intuition.
Qed.

Lemma perform_raises (w : World) (op : io_op) (e : exn) :
  fails w op = Some e -> exists e', snd (perform w op) = inl e'.
Proof. intros H. unfold perform. simpl. rewrite H. now exists e. Qed.

(** An iteration attempts operations of its own day only. *)
Lemma generate_one_calls (w : World) (target_month target_year : Z)
    (i : nat) (op : io_op) :
  In (Call op) (fst (generate_one w target_month target_year i)) ->
  op_day op = Some i.
Proof.
  unfold generate_one. intros H.
  repeat (apply bind_log in H; destruct H as [H|(_ & _ & H)];
          [first [apply perform_log in H; injection H as ->; reflexivity
                 | simpl in H; destruct H as [H|[]]; discriminate H] |]).
  simpl in H. destruct H as [H|[]]. discriminate H.
Qed.

Lemma generate_one_raises (w : World) (target_month target_year : Z)
    (i : nat) (e : exn) :
  fails w (SaveReport i) = Some e ->
  exists e', snd (generate_one w target_month target_year i) = inl e'.
Proof.
  intros H. unfold generate_one.
  apply bind_raises. right. intros _.
  apply bind_raises. right. intros _.
  apply bind_raises. left. now apply perform_raises with (e := e).
Qed.

(** The loop stops at the first iteration that raises. *)
Lemma for_range_stops (body : nat -> IO unit) (i : nat) :
  (exists e, snd (body i) = inl e) ->
  (forall k op, In (Call op) (fst (body k)) -> op_day op = Some k) ->
  forall n i0, i0 <= i < i0 + n ->
  (exists e, snd (for_range i0 n body) = inl e) /\
  forall op j, In (Call op) (fst (for_range i0 n body)) ->
               op_day op = Some j -> j <= i.
Proof.
  intros Hraise Hday. induction n as [|n IH]; intros i0 Hi; [lia|].
  simpl for_range. destruct (Nat.eq_dec i0 i) as [->|Hneq].
  - split.
    + apply bind_raises. now left.
    + intros op j Hin Hop. apply bind_log in Hin.
      destruct Hin as [Hin|(a & Ha & _)].
      * apply Hday in Hin. rewrite Hin in Hop. injection Hop as <-. lia.
      * destruct Hraise as [e He]. congruence.
  - destruct (IH (S i0)) as [Hr Hc]; [lia|]. split.
    + apply bind_raises. right. intros _. exact Hr.
    + intros op j Hin Hop. apply bind_log in Hin.
      destruct Hin as [Hin|(a & _ & Hin)].
      * apply Hday in Hin. rewrite Hin in Hop. injection Hop as <-. lia.
      * now apply (Hc op j).
Qed.

Lemma datetime_valid (year month : Z) :
  valid_year_month year month = true -> datetime year month = inr tt.
Proof.
  intros H. unfold datetime. rewrite H.
  unfold valid_year_month in H. unfold fits_c_int.
  apply andb_prop in H. destruct H as [H Hm2].
  apply andb_prop in H. destruct H as [H Hm1].
  apply andb_prop in H. destruct H as [Hy1 Hy2].
  apply Z.leb_le in Hy1, Hy2, Hm1, Hm2.
  replace (-2147483648 <=? year)%Z with true by (symmetry; apply Z.leb_le; lia).
  replace (year <=? 2147483647)%Z with true by (symmetry; apply Z.leb_le; lia).
  replace (-2147483648 <=? month)%Z with true
    by (symmetry; apply Z.leb_le; lia).
  replace (month <=? 2147483647)%Z with true
    by (symmetry; apply Z.leb_le; lia).
  reflexivity.
Qed.

(** The events of a call that gets past the date check and the folder
    creation. *)
Lemma generate_log (w : World) (target_name : str)
    (target_month target_year : Z) :
  valid_year_month target_year target_month = true ->
  fails w MakeDirs = None ->
  fst (generate_monthly_reports_docx w target_name target_month target_year)
  = [Call MakeDirs; Print MsgStarting; Call LoadTemplate]
    ++ match fails w LoadTemplate with
       | Some e => [Print (exn_message e)]
       | None =>
         let r := for_range 0 (days_in_month target_year target_month)
                    (generate_one w target_month target_year) in
         fst r
         ++ match snd r with
            | inl e => [Print (exn_message e)]
            | inr _ => []
            end
       end.
Proof.
  intros Hvalid Hmk. unfold generate_monthly_reports_docx, perform.
  rewrite (datetime_valid _ _ Hvalid), Hmk.
  cbn [tell ret raise bind try_except fst snd app].
  destruct (fails w LoadTemplate) as [e|].
  - cbn [tell ret raise bind try_except fst snd app]. now destruct e.
  - cbn [tell ret raise bind try_except fst snd app].
    destruct (for_range 0 (days_in_month target_year target_month)
                (generate_one w target_month target_year)) as [llog [e|[]]].
    + cbn [fst snd]. now destruct e.
    + cbn [fst snd]. now rewrite app_nil_r.
Qed.

(** Without a failure every day of the month is saved: February 2028 has
    twenty-nine days and the call writes twenty-nine documents. *)
Example february_2028 :
  let log :=
    fst (generate_monthly_reports_docx (mkWorld sample_document (fun _ => None))
           TARGET_NAME 2 2028) in
  days_in_month 2028 2 = 29 /\
  length (filter (fun ev => match ev with Wrote _ _ => true | _ => false end)
                 log) = 29.
Proof. split; vm_compute; reflexivity. Qed.

(** ** Two replacements in one paragraph *)

Lemma rebuild_from_eq (s e : nat) (new_text : str) (rs : list Run) :
  s < e ->
  forall c, rebuild c (s <? c) s e new_text rs = rebuild_from c s e new_text rs.
Proof.
  intros Hse. induction rs as [|r rs IH]; intros c; simpl; [reflexivity|].
  f_equal. rewrite <- IH. f_equal.
  apply eq_true_iff_eq.
  rewrite orb_true_iff, !Nat.ltb_lt, overlaps_true. lia.
Qed.

Lemma rebuild_from_0 (s e : nat) (new_text : str) (rs : list Run) :
  s < e -> rebuild 0 false s e new_text rs = rebuild_from 0 s e new_text rs.
Proof. intros Hse. now rewrite <- rebuild_from_eq. Qed.

Lemma rebuild_from_app (c s e : nat) (new_text : str) (l1 l2 : list Run) :
  rebuild_from c s e new_text (l1 ++ l2)
  = rebuild_from c s e new_text l1
    ++ rebuild_from (c + length (join_runs l1)) s e new_text l2.
Proof.
  revert c; induction l1 as [|r l1 IH]; intros c; simpl.
  - now rewrite Nat.add_0_r.
  - rewrite IH, join_runs_cons, length_app, <- app_assoc.
    now rewrite Nat.add_assoc.
Qed.

Lemma rebuild_from_single (c s e : nat) (new_text : str) (r : Run) :
  rebuild_from c s e new_text [r] = pieces c (s <? c) s e new_text r.
Proof. simpl. apply app_nil_r. Qed.

Lemma overlaps_false (c s e : nat) (r : Run) :
  c + length (text r) <= s \/ e <= c \/ length (text r) = 0 ->
  overlaps c s e r = false.
Proof.
  intros H. destruct (overlaps c s e r) eqn:E; [|reflexivity].
  apply overlaps_true in E. lia.
Qed.

Lemma pieces_outside (c : nat) (d : bool) (s e : nat) (new_text : str)
    (r : Run) :
  c + length (text r) <= s \/ e <= c \/ length (text r) = 0 ->
  pieces c d s e new_text r = [r].
Proof. intros H. unfold pieces. now rewrite overlaps_false. Qed.

Lemma rebuild_from_left (s e : nat) (new_text : str) (rs : list Run) :
  forall c, c + length (join_runs rs) <= s ->
  rebuild_from c s e new_text rs = rs.
Proof.
  induction rs as [|r rs IH]; intros c H; simpl; [reflexivity|].
  rewrite join_runs_cons, length_app in H.
  rewrite pieces_outside by lia. rewrite IH by lia. reflexivity.
Qed.

Lemma rebuild_from_right (s e : nat) (new_text : str) (rs : list Run) :
  forall c, e <= c -> rebuild_from c s e new_text rs = rs.
Proof.
  induction rs as [|r rs IH]; intros c H; simpl; [reflexivity|].
  rewrite pieces_outside by lia. rewrite IH by lia. reflexivity.
Qed.

Lemma join_runs_fragment (t : str) (r : Run) : join_runs (fragment t r) = t.
Proof.
  destruct t; [reflexivity|]. unfold join_runs. simpl. now rewrite app_nil_r.
Qed.

Lemma pieces_overlapping (c : nat) (d : bool) (s e : nat) (new_text : str)
    (r : Run) :
  c < c + length (text r) -> c < e -> s < c + length (text r) -> s < e ->
  pieces c d s e new_text r
  = fragment (firstn (Nat.max c s - c) (text r)) r
    ++ (if d then [] else [emit new_text r])
    ++ fragment (skipn (Nat.min (c + length (text r)) e - c) (text r)) r.
Proof.
  intros H1 H2 H3 H4. unfold pieces.
  now rewrite (proj2 (overlaps_true c s e r)) by lia.
Qed.

(** The text the pieces of one run add up to ends where the end of the run
    is moved to. *)
Lemma pieces_length (c s e : nat) (new_text : str) (r : Run) :
  s < e ->
  moved s e (length new_text) c
  + length (join_runs (pieces c (s <? c) s e new_text r))
  = moved s e (length new_text) (c + length (text r)).
Proof.
  intros Hse. unfold pieces. destruct (overlaps c s e r) eqn:E.
  - apply overlaps_true in E.
    rewrite !join_runs_app, !length_app, !join_runs_fragment.
    rewrite length_firstn, length_skipn. unfold moved.
    destruct (Nat.ltb_spec s c); destruct (Nat.leb_spec c s);
      destruct (Nat.leb_spec (c + length (text r)) s);
      unfold join_runs; simpl; rewrite ?length_app; simpl; lia.
  - assert (H : c + length (text r) <= s \/ e <= c \/ length (text r) = 0).
    { destruct (Nat.le_gt_cases (c + length (text r)) s); [now left|].
      destruct (Nat.le_gt_cases e c); [now right; left|].
      destruct (Nat.eq_dec (length (text r)) 0); [now right; right|].
      rewrite (proj2 (overlaps_true c s e r)) in E by lia. discriminate. }
    unfold join_runs, moved. simpl. rewrite app_nil_r.
    destruct (Nat.leb_spec c s);
      destruct (Nat.leb_spec (c + length (text r)) s); lia.
Qed.

(** The pieces of a run depend on the cursor and the range only through
    their relative position. *)
Lemma pieces_shift (c1 c2 : nat) (d : bool) (s1 e1 s2 e2 : nat)
    (new_text : str) (r : Run) :
  c1 + s2 = c2 + s1 -> c1 + e2 = c2 + e1 ->
  pieces c1 d s1 e1 new_text r = pieces c2 d s2 e2 new_text r.
Proof.
  intros Hs He. unfold pieces, overlaps.
  assert (E : (Nat.max c1 s1 <? Nat.min (c1 + length (text r)) e1)
              = (Nat.max c2 s2 <? Nat.min (c2 + length (text r)) e2)).
  { apply eq_true_iff_eq. rewrite !Nat.ltb_lt. lia. }
  rewrite E.
  replace (Nat.max c1 s1 - c1) with (Nat.max c2 s2 - c2) by lia.
  replace (Nat.min (c1 + length (text r)) e1 - c1)
    with (Nat.min (c2 + length (text r)) e2 - c2) by lia.
  reflexivity.
Qed.

Lemma fragment_emit (t u : str) (r : Run) :
  fragment t (emit u r) = fragment t r.
Proof. now destruct t. Qed.

Lemma fragment_nonempty (u : str) (r : Run) :
  0 < length u -> fragment u r = [emit u r].
Proof. destruct u; simpl; [lia | reflexivity]. Qed.

Lemma pieces_emit_overlapping (p : nat) (d : bool) (s e : nat)
    (new_text u : str) (r : Run) :
  p < p + length u -> p < e -> s < p + length u -> s < e ->
  pieces p d s e new_text (emit u r)
  = fragment (firstn (Nat.max p s - p) u) r
    ++ (if d then [] else [emit new_text r])
    ++ fragment (skipn (Nat.min (p + length u) e - p) u) r.
Proof.
  intros H1 H2 H3 H4. rewrite pieces_overlapping by assumption.
  simpl text. now rewrite !fragment_emit.
Qed.

Lemma moved_before (s e l q : nat) : q <= s -> moved s e l q = q.
Proof. intros H. unfold moved. destruct (Nat.leb_spec q s); lia. Qed.

(** Rebuilding for the range [[a, a')] and then for the range [[b, b')],
    moved to where the first rebuild left it, gives the same runs as
    rebuilding for [[b, b')] and then for [[a, a')], when the first range
    lies before the second. *)
Section Commute.
Variables (a a' b b' : nat) (x y : str).
Hypothesis Ha : a < a'.
Hypothesis Hab : a' <= b.
Hypothesis Hb : b < b'.

Lemma moved_after (q : nat) :
  a' <= q -> moved a a' (length x) q = a + length x + (q - a').
Proof. intros H. unfold moved. destruct (Nat.leb_spec q a); lia. Qed.

(** One run through both rebuilds, in either order. *)
Lemma pieces_commute (r : Run) (c : nat) :
  rebuild_from (moved a a' (length x) c)
    (moved a a' (length x) b) (moved a a' (length x) b') y
    (pieces c (a <? c) a a' x r)
  = rebuild_from (moved b b' (length y) c) a a' x
      (pieces c (b <? c) b b' y r).
Proof.
  rewrite (moved_after b), (moved_after b') by lia.
  destruct (Nat.eq_dec (length (text r)) 0) as [Hz|Hnz].
  { rewrite !(pieces_outside c) by lia. rewrite !rebuild_from_single.
    now rewrite !pieces_outside by lia. }
  destruct (Nat.le_gt_cases a' c) as [Hc|Hc].
  { (* the run starts after the first range *)
    rewrite (pieces_outside c _ a a') by lia. rewrite rebuild_from_single.
    rewrite rebuild_from_right
      by (unfold moved; destruct (Nat.leb_spec c b); lia).
    rewrite moved_after by lia.
    replace (a + length x + (b - a') <? a + length x + (c - a'))
      with (b <? c)
      by (apply eq_true_iff_eq; rewrite !Nat.ltb_lt; lia).
    apply pieces_shift; lia. }
  destruct (Nat.le_gt_cases (c + length (text r)) b) as [Hr|Hr].
  { (* the run ends before the second range *)
    rewrite (pieces_outside c _ b b') by lia. rewrite rebuild_from_single.
    rewrite (moved_before b b') by lia.
    rewrite rebuild_from_left; [reflexivity|].
    rewrite pieces_length by assumption.
    unfold moved. destruct (Nat.leb_spec (c + length (text r)) a); lia. }
  (* the run meets both ranges *)
  rewrite (moved_before b b') by lia.
  rewrite (pieces_overlapping c (a <? c) a a') by lia.
  rewrite (pieces_overlapping c (b <? c) b b') by lia.
  replace (b <? c) with false
    by (symmetry; apply Nat.ltb_ge; lia).
  replace (Nat.max c b - c) with (b - c) by lia.
  replace (Nat.min (c + length (text r)) a' - c) with (a' - c) by lia.
  rewrite !rebuild_from_app, !join_runs_fragment.
  rewrite (fragment_nonempty (skipn (a' - c) (text r)))
    by (rewrite length_skipn; lia).
  rewrite (fragment_nonempty (firstn (b - c) (text r)))
    by (rewrite length_firstn; lia).
  rewrite !rebuild_from_single.
  set (t := text r) in *.
  assert (HP : moved a a' (length x) c
               + length (firstn (Nat.max c a - c) t)
               + length (join_runs (if a <? c then [] else [emit x r]))
               = a + length x).
  { rewrite length_firstn. unfold moved, join_runs.
    destruct (Nat.ltb_spec a c); destruct (Nat.leb_spec c a); try lia;
      simpl; rewrite ?app_nil_r; lia. }
  rewrite HP.
  rewrite (rebuild_from_left _ _ _ (fragment _ r))
    by (rewrite join_runs_fragment; lia).
  rewrite (rebuild_from_left _ _ _ (if a <? c then [] else [emit x r]))
    by lia.
  replace (a + length x + (b - a') <? a + length x) with false
    by (symmetry; apply Nat.ltb_ge; lia).
  rewrite pieces_emit_overlapping by (rewrite ?length_skipn; lia).
  rewrite (pieces_emit_overlapping c) by (rewrite ?length_firstn; lia).
  rewrite (pieces_outside _ _ a a' x (emit y r))
    by (rewrite length_firstn; lia).
  rewrite rebuild_from_right by (rewrite length_firstn; lia).
  rewrite length_skipn, length_firstn.
  replace (Nat.max c a - c) with (Nat.min (Nat.max c a - c) (b - c)) at 1
    by lia.
  rewrite <- firstn_firstn.
  replace (Nat.max (a + length x) (a + length x + (b - a')) - (a + length x))
    with (b - a') by lia.
  replace (Nat.min (c + Nat.min (b - c) (length t)) a' - c)
    with (a' - c) by lia.
  rewrite firstn_skipn_comm.
  replace (a' - c + (b - a')) with (b - c) by lia.
  rewrite skipn_skipn.
  replace (Nat.min (a + length x + (length t - (a' - c)))
             (a + length x + (b' - a')) - (a + length x) + (a' - c))
    with (Nat.min (c + length t) b' - c) by lia.
  now rewrite <- !app_assoc.
Qed.

Lemma rebuild_from_commute (rs : list Run) :
  forall c,
  rebuild_from (moved a a' (length x) c)
    (moved a a' (length x) b) (moved a a' (length x) b') y
    (rebuild_from c a a' x rs)
  = rebuild_from (moved b b' (length y) c) a a' x
      (rebuild_from c b b' y rs).
Proof.
  induction rs as [|r rs IH]; intros c; simpl; [reflexivity|].
  rewrite !rebuild_from_app, !pieces_length by assumption.
  now rewrite pieces_commute, IH.
Qed.
End Commute.

(** The rebuild treats re-created runs as it treats the runs they were
    made from. *)
Lemma pieces_recopy (c : nat) (d : bool) (s e : nat) (new_text : str)
    (r : Run) :
  pieces c d s e new_text (recopy r) = map recopy (pieces c d s e new_text r).
Proof.
  unfold pieces, overlaps. cbn [recopy text].
  destruct (Nat.max c s <? Nat.min (c + length (text r)) e);
    [|reflexivity].
  rewrite !map_app.
  destruct (firstn (Nat.max c s - c) (text r));
    destruct (skipn (Nat.min (c + length (text r)) e - c) (text r));
    destruct d; reflexivity.
Qed.

Lemma rebuild_recopy (s e : nat) (new_text : str) (rs : list Run) :
  forall c d,
  rebuild c d s e new_text (map recopy rs)
  = map recopy (rebuild c d s e new_text rs).
Proof.
  induction rs as [|r rs IH]; intros c d; [reflexivity|].
  cbn [map rebuild]. rewrite map_app, pieces_recopy, IH. reflexivity.
Qed.

(** C6, amended.  Two placeholders whose matched ranges do not overlap can
    be replaced in either order with the same resulting paragraph (same
    runs, texts and formatting), provided each replacement leaves the other
    placeholder's match where it was: after it, the other placeholder is
    still located at its original range, moved by the change of length when
    it lies to the right. *)
Theorem replace_order_irrelevant (p : Paragraph)
    (old_a new_a old_b new_b : str) (a a' b b' : nat) :
  old_a <> [] -> old_b <> [] ->
  locate old_a (full_text p) = Some (a, a') ->
  locate old_b (full_text p) = Some (b, b') ->
  a' <= b \/ b' <= a ->
  let p_a := snd (replace_text_in_runs p old_a new_a) in
  let p_b := snd (replace_text_in_runs p old_b new_b) in
  locate old_b (full_text p_a)
  = Some (moved a a' (length new_a) b, moved a a' (length new_a) b') ->
  locate old_a (full_text p_b)
  = Some (moved b b' (length new_b) a, moved b b' (length new_b) a') ->
  replace_text_in_runs p_a old_b new_b = replace_text_in_runs p_b old_a new_a.
Proof.
  intros Hna Hnb Hla Hlb Hdisj p_a p_b Hlb' Hla'.
  destruct (located_range _ _ _ _ Hna Hla) as [Ha _].
  destruct (located_range _ _ _ _ Hnb Hlb) as [Hb _].
  destruct (located_range _ _ _ _ Hnb Hlb') as [Hb' _].
  destruct (located_range _ _ _ _ Hna Hla') as [Ha' _].
  rewrite (replace_located p_a _ new_b _ _ Hlb').
  rewrite (replace_located p_b _ new_a _ _ Hla').
  unfold p_a, p_b.
  rewrite (replace_located p _ new_a _ _ Hla).
  rewrite (replace_located p _ new_b _ _ Hlb).
  cbn [snd runs]. rewrite !rebuild_recopy. do 4 f_equal.
  rewrite !rebuild_from_0 by assumption.
  destruct Hdisj as [Hab|Hba].
  - rewrite (moved_before b b' (length new_b) a),
      (moved_before b b' (length new_b) a') by lia.
    pose proof (rebuild_from_commute a a' b b' new_a new_b Ha Hab Hb
                  (runs p) 0) as H.
    now rewrite !(moved_before _ _ _ 0) in H by lia.
  - rewrite (moved_before a a' (length new_a) b),
      (moved_before a a' (length new_a) b') by lia.
    pose proof (rebuild_from_commute b b' a a' new_b new_a Hb Hba Ha
                  (runs p) 0) as H.
    now rewrite !(moved_before _ _ _ 0) in H by lia.
Qed.

Lemma replace_order_irrelevant_witness :
  let p := two_placeholder_paragraph in
  let old_a := lit "{D}" in
  let new_a := lit "03/11/2025" in
  let old_b := lit "{N}" in
  let new_b := [] in
  let p_a := snd (replace_text_in_runs p old_a new_a) in
  let p_b := snd (replace_text_in_runs p old_b new_b) in
  old_a <> [] /\ old_b <> [] /\
  locate old_a (full_text p) = Some (3, 6) /\
  locate old_b (full_text p) = Some (10, 13) /\
  (6 <= 10 \/ 13 <= 3) /\
  locate old_b (full_text p_a)
  = Some (moved 3 6 (length new_a) 10, moved 3 6 (length new_a) 13) /\
  locate old_a (full_text p_b)
  = Some (moved 10 13 (length new_b) 3, moved 10 13 (length new_b) 6) /\
  replace_text_in_runs p_a old_b new_b = replace_text_in_runs p_b old_a new_a.
Proof.
  intros p old_a new_a old_b new_b p_a p_b.
  assert (H1 : old_a <> []) by discriminate.
  assert (H2 : old_b <> []) by discriminate.
  assert (H3 : locate old_a (full_text p) = Some (3, 6)) by reflexivity.
  assert (H4 : locate old_b (full_text p) = Some (10, 13)) by reflexivity.
  assert (H5 : 6 <= 10 \/ 13 <= 3).
  { left. repeat constructor. }
  assert (H6 : locate old_b (full_text p_a)
               = Some (moved 3 6 (length new_a) 10,
                       moved 3 6 (length new_a) 13)) by reflexivity.
  assert (H7 : locate old_a (full_text p_b)
               = Some (moved 10 13 (length new_b) 3,
                       moved 10 13 (length new_b) 6)) by reflexivity.
  repeat (split; [assumption|]).
  exact (replace_order_irrelevant p old_a new_a old_b new_b 3 6 10 13
           H1 H2 H3 H4 H5 H6 H7).
Defined.

(** C6, as stated, fails: the placeholders ["A"] and ["B"] of the text
    ["AB"] occupy disjoint ranges, yet replacing ["A"] by ["B"] and ["B"]
    by ["C"] gives ["CB"] in one order and ["BC"] in the other, because
    the second call finds the leftmost ["B"] of the text it is given. *)
Lemma replace_order_matters :
  let p := ab_paragraph in
  let a_then_b :=
    snd (replace_text_in_runs
           (snd (replace_text_in_runs p (lit "A") (lit "B")))
           (lit "B") (lit "C")) in
  let b_then_a :=
    snd (replace_text_in_runs
           (snd (replace_text_in_runs p (lit "B") (lit "C")))
           (lit "A") (lit "B")) in
  locate (lit "A") (full_text p) = Some (0, 1) /\
  locate (lit "B") (full_text p) = Some (1, 2) /\
  full_text a_then_b = lit "CB" /\
  full_text b_then_a = lit "BC" /\
  a_then_b <> b_then_a.
Proof.
  repeat (split; [reflexivity|]).
  intros H. apply (f_equal full_text) in H. discriminate H.
Qed.

(** ** Further properties of the font copy and of the replacer *)

(** X1.  Copying a font into the fresh font of a new run gives the source
    font back exactly when its highlight is not the colour index 0 and its
    vertical alignment is not an explicit baseline; those two settings are
    lost, everything else is copied.  A second copy changes nothing more. *)
Theorem copy_font_style_exact (source_font : Font.t) :
  (copy_font_style source_font Font.fresh = source_font <->
   Font.highlight_color source_font <> Some 0%N /\
   Font.vert_align source_font <> Some Baseline) /\
  copy_font_style (copy_font_style source_font Font.fresh) Font.fresh
  = copy_font_style source_font Font.fresh.
Proof.
  destruct source_font as [n sz b i u st [[| |]|] [c|] [[|h]|]];
    cbv; (split; [split|reflexivity]).
  all: try (intros H; discriminate H).
  all: try (intros [H1 H2]; (now destruct H1) || (now destruct H2)).
  all: try (intros _; reflexivity).
  all: intros _; split; intros E; discriminate E.
Qed.

Lemma rebuild_empty_range (s e : nat) (new_text : str) (rs : list Run) :
  e <= s -> forall c d, rebuild c d s e new_text rs = rs.
Proof.
  intros Hes. induction rs as [|r rs IH]; intros c d; simpl; [reflexivity|].
  assert (E : overlaps c s e r = false).
  { destruct (overlaps c s e r) eqn:E; [|reflexivity].
    apply overlaps_true in E. lia. }
  unfold pieces. rewrite E, orb_false_r, IH. reflexivity.
Qed.

(** X2.  With an empty [old_text] the call reports success, inserts
    [new_text] nowhere and re-creates every run in place: same texts, same
    styles, each font replaced by its copy. *)
Theorem replace_empty_old_text (p : Paragraph) (new_text : str) :
  replace_text_in_runs p [] new_text
  = (true,
     mkParagraph
       (map (fun r =>
               mkRun (text r) (style r)
                     (copy_font_style (font r) Font.fresh))
            (runs p))).
Proof.
  rewrite replace_text_in_runs_eq.
  assert (E : locate [] (full_text p) = Some (0, 0)).
  { unfold locate. now destruct (full_text p). }
  rewrite E, rebuild_empty_range by lia. reflexivity.
Qed.

Lemma length_fragment (t : str) (r : Run) : length (fragment t r) <= 1.
Proof. destruct t; simpl; lia. Qed.

Lemma rebuild_done_length (s e : nat) (new_text : str) (rs : list Run) :
  forall c, s < c -> length (rebuild c true s e new_text rs) <= length rs.
Proof.
  induction rs as [|r rs IH]; intros c Hc; simpl; [lia|].
  rewrite length_app. specialize (IH (c + length (text r))).
  assert (length (pieces c true s e new_text r) <= 1).
  { unfold pieces. destruct (overlaps c s e r); [|simpl; lia].
    replace (Nat.max c s - c) with 0 by lia. simpl.
    apply length_fragment. }
  lia.
Qed.

Lemma rebuild_length (s e : nat) (new_text : str) (rs : list Run) :
  forall c, length (rebuild c false s e new_text rs) <= length rs + 2.
Proof.
  induction rs as [|r rs IH]; intros c; simpl; [lia|].
  rewrite length_app. unfold pieces.
  destruct (overlaps c s e r) eqn:E; simpl orb.
  - apply overlaps_true in E.
    pose proof (rebuild_done_length s e new_text rs (c + length (text r))).
    rewrite !length_app. simpl.
    pose proof (length_fragment (firstn (Nat.max c s - c) (text r)) r).
    pose proof (length_fragment
                  (skipn (Nat.min (c + length (text r)) e - c) (text r)) r).
    lia.
  - specialize (IH (c + length (text r))). simpl. lia.
Qed.

(** X3.  A call adds at most two runs to the paragraph, whatever the
    texts: the run of the replacement and one split. *)
Theorem replace_adds_at_most_two_runs (p : Paragraph)
    (old_text new_text : str) :
  length (runs (snd (replace_text_in_runs p old_text new_text)))
  <= length (runs p) + 2.
Proof.
  rewrite replace_text_in_runs_eq.
  destruct (locate old_text (full_text p)) as [[s e]|]; simpl; [|lia].
  rewrite length_map. apply rebuild_length.
Qed.

Lemma pieces_formatting (c : nat) (d : bool) (s e : nat) (new_text : str)
    (r r' : Run) :
  In r' (pieces c d s e new_text r) ->
  style r' = style r /\ font r' = font r.
Proof.
  unfold pieces, fragment. intros H.
  destruct (overlaps c s e r).
  - repeat (apply in_app_or in H; destruct H as [H|H]).
    + destruct (firstn _ _); [destruct H | destruct H as [<-|[]]; now split].
    + destruct d; [destruct H | destruct H as [<-|[]]; now split].
    + destruct (skipn _ _); [destruct H | destruct H as [<-|[]]; now split].
  - destruct H as [<-|[]]. now split.
Qed.

Lemma rebuild_formatting (s e : nat) (new_text : str) (rs : list Run)
    (r' : Run) :
  forall c d, In r' (rebuild c d s e new_text rs) ->
  exists r, In r rs /\ style r' = style r /\ font r' = font r.
Proof.
  induction rs as [|r rs IH]; intros c d H; simpl in H; [destruct H|].
  apply in_app_or in H. destruct H as [H|H].
  - exists r. split; [now left|]. now apply pieces_formatting in H.
  - destruct (IH _ _ H) as (r0 & Hin & Hs). exists r0. split; [now right|].
    assumption.
Qed.

(** X4.  After a call that returned [True] every run of the paragraph
    carries the style of some run the paragraph had before and the copy of
    that run's font: the replacer creates no formatting of its own. *)
Theorem replace_invents_no_formatting (p : Paragraph)
    (old_text new_text : str) (r' : Run) :
  fst (replace_text_in_runs p old_text new_text) = true ->
  In r' (runs (snd (replace_text_in_runs p old_text new_text))) ->
  exists r, In r (runs p) /\ style r' = style r /\
            font r' = copy_font_style (font r) Font.fresh.
Proof.
  rewrite replace_text_in_runs_eq.
  destruct (locate old_text (full_text p)) as [[s e]|]; simpl;
    [|discriminate].
  intros _ H. apply in_map_iff in H. destruct H as (r0 & <- & H).
  destruct (rebuild_formatting _ _ _ _ _ _ _ H) as (r & Hin & Hs & Hf).
  exists r. split; [assumption|]. simpl. unfold copied.
  now rewrite Hs, Hf.
Qed.

Lemma replace_invents_no_formatting_witness :
  let p := highlighted_paragraph in
  let r' := mkRun (lit "a") None Font.fresh in
  fst (replace_text_in_runs p (lit "bc") (lit "x")) = true /\
  In r' (runs (snd (replace_text_in_runs p (lit "bc") (lit "x")))) /\
  exists r, In r (runs p) /\ style r' = style r /\
            font r' = copy_font_style (font r) Font.fresh.
Proof.
  intros p r'.
  assert (H0 : fst (replace_text_in_runs p (lit "bc") (lit "x")) = true)
    by reflexivity.
  assert (H : In r' (runs (snd (replace_text_in_runs p (lit "bc")
                                  (lit "x")))))
    by (left; reflexivity).
  split; [exact H0|]. split; [exact H|].
  exact (replace_invents_no_formatting p (lit "bc") (lit "x") r' H0 H).
Defined.

Lemma rebuild_from_text (s e : nat) (new_text : str) (rs : list Run)
    (c : nat) :
  c <= s -> s < e -> e <= c + length (join_runs rs) ->
  join_runs (rebuild_from c s e new_text rs)
  = firstn (s - c) (join_runs rs) ++ new_text ++ skipn (e - c) (join_runs rs).
Proof.
  intros Hc Hse He. rewrite <- rebuild_from_eq by assumption.
  replace (s <? c) with false by (symmetry; apply Nat.ltb_ge; lia).
  destruct (rebuild_decompose s e new_text rs c Hc Hse He) as
    (pre & k & r & post & Hreb & Hpre & Hpost & _).
  rewrite Hreb, !join_runs_app.
  rewrite <- (attributed_text pre), <- (attributed_text post), Hpre, Hpost.
  rewrite <- firstn_map, <- skipn_map, attributed_text.
  unfold join_runs at 2. simpl. now rewrite app_nil_r.
Qed.

(** X5.  The runs that end at or before the match and the runs that start
    at or after it are re-created whole and in place, each with its text,
    its style and the copy of its font; only the runs between them are
    rewritten, and their text is the old one with the matched range
    replaced by [new_text]. *)
Theorem replace_keeps_outer_runs (p : Paragraph) (old_text new_text : str)
    (s e : nat) (before mid after : list Run) :
  old_text <> [] ->
  locate old_text (full_text p) = Some (s, e) ->
  runs p = before ++ mid ++ after ->
  length (join_runs before) <= s ->
  e <= length (join_runs (before ++ mid)) ->
  exists mid',
    runs (snd (replace_text_in_runs p old_text new_text))
    = map recopy before ++ mid' ++ map recopy after /\
    join_runs mid'
    = firstn (s - length (join_runs before)) (join_runs mid)
      ++ new_text
      ++ skipn (e - length (join_runs before)) (join_runs mid).
Proof.
  intros Hne Hloc Hruns Hb He.
  destruct (located_range _ _ _ _ Hne Hloc) as [Hse _].
  rewrite (replace_located p _ new_text _ _ Hloc). cbn [snd runs].
  rewrite rebuild_from_0 by assumption. rewrite Hruns.
  rewrite !rebuild_from_app.
  rewrite (rebuild_from_left s e new_text before) by lia.
  rewrite join_runs_app, length_app in He.
  rewrite (rebuild_from_right s e new_text after) by lia.
  exists (map recopy
            (rebuild_from (0 + length (join_runs before)) s e new_text mid)).
  split; [now rewrite !map_app|].
  rewrite join_runs_recopy. now apply rebuild_from_text.
Qed.

Lemma replace_keeps_outer_runs_witness :
  let p := two_placeholder_paragraph in
  let old_text := lit "{D}" in
  let new_text := lit "03/11/2025" in
  let before := @nil Run in
  let mid := [mkRun (lit "on {D") None bold_font;
              mkRun (lit "} by {N") None Font.fresh] in
  let after := [mkRun (lit "}.") (Some 7%N) Font.fresh] in
  old_text <> [] /\
  locate old_text (full_text p) = Some (3, 6) /\
  runs p = before ++ mid ++ after /\
  length (join_runs before) <= 3 /\
  6 <= length (join_runs (before ++ mid)) /\
  exists mid',
    runs (snd (replace_text_in_runs p old_text new_text))
    = map recopy before ++ mid' ++ map recopy after /\
    join_runs mid'
    = firstn (3 - length (join_runs before)) (join_runs mid)
      ++ new_text
      ++ skipn (6 - length (join_runs before)) (join_runs mid).
Proof.
  intros p old_text new_text before mid after.
  assert (H1 : old_text <> []) by discriminate.
  assert (H2 : locate old_text (full_text p) = Some (3, 6)) by reflexivity.
  assert (H3 : runs p = before ++ mid ++ after) by reflexivity.
  assert (H4 : length (join_runs before) <= 3) by apply Nat.le_0_l.
  assert (H5 : 6 <= length (join_runs (before ++ mid))).
  { simpl. repeat constructor. }
  repeat (split; [assumption|]).
  exact (replace_keeps_outer_runs p old_text new_text 3 6 before mid after
           H1 H2 H3 H4 H5).
Defined.

(** ** Further properties of the document walk *)

Lemma map_fixed {A} (f : A -> A) (l : list A) :
  (forall x, In x l -> f x = x) -> map f l = l.
Proof.
  intros H. rewrite <- (map_id l) at 2. now apply map_ext_in.
Qed.

Lemma map_at_fixed {A} (f : A -> A) (l : list A) :
  forall k, (forall x, nth_error l k = Some x -> f x = x) -> map_at k f l = l.
Proof.
  induction l as [|x l IH]; intros k H; [reflexivity|].
  destruct k as [|k]; simpl.
  - now rewrite (H x eq_refl).
  - f_equal. apply IH. intros y Hy. now apply H.
Qed.

Lemma fold_map_at_fixed {A} (f : A -> A) (ks : list nat) (l : list A) :
  (forall k x, In k ks -> nth_error l k = Some x -> f x = x) ->
  fold_left (fun store k => map_at k f store) ks l = l.
Proof.
  induction ks as [|k ks IH]; intros H; [reflexivity|].
  simpl. rewrite map_at_fixed by (intros x Hx; apply (H k x); [now left|
    assumption]).
  apply IH. intros k' x Hk' Hx. apply (H k' x); [now right | assumption].
Qed.

(** A document none of whose paragraphs is changed by the step is left as
    it is. *)
Lemma process_fixed (document : Document)
    (date_placeholder new_date_str name_prefix new_name : str) :
  (forall p, In p (reachable document) ->
     process_paragraph date_placeholder new_date_str name_prefix new_name p
     = p) ->
  process_all_text_locations document date_placeholder new_date_str
    name_prefix new_name = document.
Proof.
  intros H. destruct document as [ps ts]. unfold process_all_text_locations.
  unfold reachable in H. simpl in *. f_equal.
  - apply map_fixed. intros p Hp. apply H, in_or_app. now left.
  - apply map_fixed. intros [store rws] Ht. unfold process_table. simpl.
    f_equal. rewrite process_rows_flat. apply fold_map_at_fixed.
    intros k [cps] Hk Hx. unfold process_cell. simpl. f_equal.
    apply map_fixed. intros p Hp. apply H, in_or_app. right.
    apply in_flat_map in Hk. destruct Hk as (row & Hrow & Hk).
    apply in_flat_map. exists (mkTable store rws). split; [assumption|].
    simpl. apply in_flat_map. exists row. split; [assumption|].
    apply in_flat_map. exists k. split; [assumption|]. now rewrite Hx.
Qed.

(** X6.  A document in which no reachable paragraph holds the date
    placeholder (in either form) or the name prefix comes out of
    [process_all_text_locations] unchanged. *)
Theorem process_without_placeholders (document : Document)
    (date_placeholder new_date_str name_prefix new_name : str) :
  (forall p i, In p (reachable document) ->
     ~ occurs_at date_placeholder (full_text p) i /\
     ~ occurs_at (nbsp_variant date_placeholder) (full_text p) i /\
     ~ occurs_at name_prefix (full_text p) i) ->
  process_all_text_locations document date_placeholder new_date_str
    name_prefix new_name = document.
Proof.
  intros H. apply process_fixed. intros p Hp.
  assert (E : replace_text_in_runs p date_placeholder new_date_str
              = (false, p)).
  { rewrite replace_text_in_runs_eq, locate_None; [reflexivity| |];
      intros i; now destruct (H p i Hp) as (H1 & H2 & H3). }
  pose proof (name_step_skipped date_placeholder new_date_str name_prefix
                new_name p) as Hs.
  cbv zeta in Hs. rewrite E in Hs. simpl in Hs. apply Hs.
  intros i. now destruct (H p i Hp) as (H1 & H2 & H3).
Qed.

Lemma process_without_placeholders_witness :
  let document :=
    mkDocument [mkParagraph [mkRun (lit "Rapport") None bold_font]]
      [mkTable [mkCell [mkParagraph []]] [mkRow [0; 0]]] in
  (forall p i, In p (reachable document) ->
     ~ occurs_at DATE_PLACEHOLDER (full_text p) i /\
     ~ occurs_at (nbsp_variant DATE_PLACEHOLDER) (full_text p) i /\
     ~ occurs_at NAME_PLACEHOLDER_PREFIX (full_text p) i) /\
  process_all_text_locations document DATE_PLACEHOLDER (lit "Le 03/11/2025")
    NAME_PLACEHOLDER_PREFIX TARGET_NAME = document.
Proof.
  intros document.
  assert (H : forall p i, In p (reachable document) ->
     ~ occurs_at DATE_PLACEHOLDER (full_text p) i /\
     ~ occurs_at (nbsp_variant DATE_PLACEHOLDER) (full_text p) i /\
     ~ occurs_at NAME_PLACEHOLDER_PREFIX (full_text p) i).
  { intros p i [<-|[<-|[<-|[]]]]; repeat split;
      apply str_find_None; reflexivity. }
  split; [exact H|].
  exact (process_without_placeholders document DATE_PLACEHOLDER
           (lit "Le 03/11/2025") NAME_PLACEHOLDER_PREFIX TARGET_NAME H).
Defined.

(** X7.  In a document whose tables list each of their cells once, no
    cell being merged over several grid positions, the walk puts every
    paragraph of every cell through the step exactly once. *)
Theorem process_unmerged_tables (document : Document)
    (date_placeholder new_date_str name_prefix new_name : str) :
  let step :=
    process_paragraph date_placeholder new_date_str name_prefix new_name in
  (forall table k,
     In table (tables document) -> k < length (table_cells table) ->
     visits table k = 1) ->
  process_all_text_locations document date_placeholder new_date_str
    name_prefix new_name
  = mkDocument
      (map step (paragraphs document))
      (map (fun table =>
              mkTable (map (process_cell step) (table_cells table))
                      (rows table))
           (tables document)).
Proof.
  intros step H. unfold process_all_text_locations. fold step. f_equal.
  apply map_ext_in. intros table Ht. unfold process_table. f_equal.
  apply nth_error_ext. intros k.
  rewrite process_rows_flat, fold_map_at, nth_error_map.
  destruct (nth_error (table_cells table) k) as [cell|] eqn:E;
    [|reflexivity].
  assert (Hk : k < length (table_cells table))
    by (apply nth_error_Some; congruence).
  pose proof (H table k Ht Hk) as Hv. unfold visits in Hv. now rewrite Hv.
Qed.

Lemma process_unmerged_tables_witness :
  let new_date_str := lit "Le 03/11/2025" in
  let step :=
    process_paragraph DATE_PLACEHOLDER new_date_str NAME_PLACEHOLDER_PREFIX
      TARGET_NAME in
  (forall table k,
     In table (tables sample_document) -> k < length (table_cells table) ->
     visits table k = 1) /\
  process_all_text_locations sample_document DATE_PLACEHOLDER new_date_str
    NAME_PLACEHOLDER_PREFIX TARGET_NAME
  = mkDocument
      (map step (paragraphs sample_document))
      (map (fun table =>
              mkTable (map (process_cell step) (table_cells table))
                      (rows table))
           (tables sample_document)).
Proof.
  intros new_date_str step.
  assert (H : forall table k,
            In table (tables sample_document) ->
            k < length (table_cells table) -> visits table k = 1).
  { intros table k [<-|[]] Hk. destruct k as [|[|k]]; [reflexivity..|].
    simpl in Hk. lia. }
  split; [exact H|].
  exact (process_unmerged_tables sample_document DATE_PLACEHOLDER new_date_str
           NAME_PLACEHOLDER_PREFIX TARGET_NAME H).
Defined.

(** ** Further properties of the batch loop *)

Lemma generate_one_success (w : World) (target_month target_year : Z)
    (i : nat) :
  fails w (CopyTemplate i) = None -> fails w (OpenCopy i) = None ->
  fails w (SaveReport i) = None -> fails w (RemoveTemp i) = None ->
  generate_one w target_month target_year i
  = (day_log w target_month target_year i, inr tt).
Proof.
  intros H1 H2 H3 H4. unfold generate_one, perform.
  rewrite H1, H2, H3, H4. reflexivity.
Qed.

Lemma generate_one_save_fails (w : World) (target_month target_year : Z)
    (i : nat) (e : exn) :
  fails w (CopyTemplate i) = None -> fails w (OpenCopy i) = None ->
  fails w (SaveReport i) = Some e ->
  generate_one w target_month target_year i
  = ([Call (CopyTemplate i); Call (OpenCopy i); Call (SaveReport i)], inl e).
Proof.
  intros H1 H2 H3. unfold generate_one, perform.
  rewrite H1, H2, H3. reflexivity.
Qed.

Lemma for_range_success (body : nat -> IO unit) (n : nat) :
  forall i0,
  (forall k, i0 <= k < i0 + n -> snd (body k) = inr tt) ->
  for_range i0 n body = (flat_map (fun k => fst (body k)) (seq i0 n), inr tt).
Proof.
  induction n as [|n IH]; intros i0 H; simpl; [reflexivity|].
  pose proof (H i0 ltac:(lia)) as H0.
  rewrite (IH (S i0)) by (intros k Hk; apply H; lia).
  destruct (body i0) as [log r]. simpl in *. now subst r.
Qed.

Lemma for_range_fails_at (body : nat -> IO unit) (i : nat) (e : exn)
    (n : nat) :
  snd (body i) = inl e ->
  forall i0, i0 <= i < i0 + n ->
  (forall k, i0 <= k < i -> snd (body k) = inr tt) ->
  for_range i0 n body
  = (flat_map (fun k => fst (body k)) (seq i0 (i - i0)) ++ fst (body i),
     inl e).
Proof.
  intros He. induction n as [|n IH]; intros i0 Hi Hok; [lia|].
  simpl for_range. destruct (Nat.eq_dec i0 i) as [->|Hneq].
  - rewrite Nat.sub_diag. simpl. destruct (body i) as [log r].
    simpl in *. now subst r.
  - pose proof (Hok i0 ltac:(lia)) as H0.
    rewrite (IH (S i0)) by (try lia; intros k Hk; apply Hok; lia).
    replace (i - i0) with (S (i - S i0)) by lia. simpl seq. simpl flat_map.
    destruct (body i0) as [log r]. simpl in *. subst r.
    now rewrite <- app_assoc.
Qed.

Lemma written_app (l1 l2 : list event) :
  written (l1 ++ l2) = written l1 ++ written l2.
Proof. apply flat_map_app. Qed.

Lemma written_days (w : World) (target_month target_year : Z)
    (l : list nat) :
  written (flat_map (day_log w target_month target_year) l)
  = map (fun i =>
           (report_name target_month target_year i,
            process_all_text_locations (template w) DATE_PLACEHOLDER
              (formatted_date target_month target_year i)
              NAME_PLACEHOLDER_PREFIX TARGET_NAME)) l.
Proof.
  induction l as [|i l IH]; [reflexivity|].
  change (flat_map (day_log w target_month target_year) (i :: l))
    with (day_log w target_month target_year i
          ++ flat_map (day_log w target_month target_year) l).
  rewrite written_app, IH. reflexivity.
Qed.

(** The whole log of a run in which no operation fails. *)
Lemma generate_quiet (w : World) (target_name : str)
    (target_month target_year : Z) :
  valid_year_month target_year target_month = true ->
  (forall op, fails w op = None) ->
  generate_monthly_reports_docx w target_name target_month target_year
  = ([Call MakeDirs; Print MsgStarting; Call LoadTemplate]
     ++ flat_map (day_log w target_month target_year)
          (seq 0 (days_in_month target_year target_month)),
     inr tt).
Proof.
  intros Hvalid Hok. unfold generate_monthly_reports_docx, perform.
  rewrite (datetime_valid _ _ Hvalid), !Hok.
  rewrite for_range_success
    by (intros k _; now rewrite generate_one_success by apply Hok).
  erewrite flat_map_ext
    by (intros k; rewrite generate_one_success by apply Hok; reflexivity).
  reflexivity.
Qed.

(** X8.  When the month and year are valid and no file operation fails,
    the call returns normally and saves one document per day of the month,
    in day order: day [i]'s file is named after its date and holds the
    template processed with that date and with the module's empty
    [TARGET_NAME], whatever [target_name] was passed. *)
Theorem quiet_batch_writes_every_day (w : World) (target_name : str)
    (target_month target_year : Z) :
  valid_year_month target_year target_month = true ->
  (forall op, fails w op = None) ->
  let run :=
    generate_monthly_reports_docx w target_name target_month target_year in
  snd run = inr tt /\
  written (fst run)
  = map (fun i =>
           (report_name target_month target_year i,
            process_all_text_locations (template w) DATE_PLACEHOLDER
              (formatted_date target_month target_year i)
              NAME_PLACEHOLDER_PREFIX []))
        (seq 0 (days_in_month target_year target_month)).
Proof.
  intros Hvalid Hok run. unfold run.
  rewrite (generate_quiet w target_name _ _ Hvalid Hok). split; [reflexivity|].
  cbn [fst]. rewrite written_app, written_days. reflexivity.
Qed.

Lemma quiet_batch_writes_every_day_witness :
  let run := generate_monthly_reports_docx quiet_world TARGET_NAME 2 2028 in
  valid_year_month 2028 2 = true /\
  (forall op, fails quiet_world op = None) /\
  snd run = inr tt /\
  written (fst run)
  = map (fun i =>
           (report_name 2 2028 i,
            process_all_text_locations (template quiet_world) DATE_PLACEHOLDER
              (formatted_date 2 2028 i) NAME_PLACEHOLDER_PREFIX []))
        (seq 0 (days_in_month 2028 2)).
Proof.
  intros run.
  assert (H1 : valid_year_month 2028 2 = true) by reflexivity.
  assert (H2 : forall op, fails quiet_world op = None)
    by (intros op; reflexivity).
  split; [exact H1|]. split; [exact H2|].
  exact (quiet_batch_writes_every_day quiet_world TARGET_NAME 2 2028 H1 H2).
Defined.

(** The year field is not padded: the first file of January 999. *)
Example report_name_year_999 :
  report_name 1 999 0 = lit "Rapport_d_activite_01-01-999.docx" /\
  formatted_date 1 999 0 = lit "Le 01/01/999".
Proof. split; reflexivity. Qed.

Lemma digit_inj (a b : nat) : digit a = digit b -> a = b.
Proof.
  unfold digit. intros H. apply Nat2N.inj in H.
  now apply Nat.add_cancel_l in H.
Qed.

Lemma two_digits_inj (a b : nat) (s t : str) :
  two_digits a ++ s = two_digits b ++ t -> a = b.
Proof.
  unfold two_digits. cbn [app]. intros H.
  assert (H1 : digit (a / 10) = digit (b / 10)) by congruence.
  assert (H2 : digit (a mod 10) = digit (b mod 10)) by congruence.
  apply digit_inj in H1, H2.
  rewrite (Nat.div_mod_eq a 10), (Nat.div_mod_eq b 10). now rewrite H1, H2.
Qed.

Lemma report_name_inj (target_month target_year : Z) (i j : nat) :
  report_name target_month target_year i
  = report_name target_month target_year j -> i = j.
Proof.
  unfold report_name. intros H. apply app_inv_head in H.
  rewrite <- !app_assoc in H. apply two_digits_inj in H. lia.
Qed.

Lemma NoDup_map_injective {A B} (f : A -> B) (l : list A) :
  (forall x y, f x = f y -> x = y) -> NoDup l -> NoDup (map f l).
Proof.
  intros Hinj Hl. induction Hl as [|a l Hnotin Hl IH]; simpl;
    constructor; [|assumption].
  intros Hin. apply in_map_iff in Hin. destruct Hin as (x & Hx & Hin).
  apply Hinj in Hx. now subst.
Qed.

(** X9.  In a run without failures no file name is written twice: the
    names of different days differ. *)
Theorem quiet_batch_names_distinct (w : World) (target_name : str)
    (target_month target_year : Z) :
  valid_year_month target_year target_month = true ->
  (forall op, fails w op = None) ->
  NoDup (map fst
           (written
              (fst (generate_monthly_reports_docx w target_name target_month
                      target_year)))).
Proof.
  intros Hvalid Hok.
  rewrite (generate_quiet w target_name _ _ Hvalid Hok). cbn [fst].
  rewrite written_app, written_days.
  change (written [Call MakeDirs; Print MsgStarting; Call LoadTemplate])
    with (@nil (str * Document)).
  rewrite app_nil_l, map_map. cbn [fst].
  apply NoDup_map_injective; [|apply seq_NoDup].
  intros i j. apply report_name_inj.
Qed.

Lemma quiet_batch_names_distinct_witness :
  valid_year_month 2028 2 = true /\
  (forall op, fails quiet_world op = None) /\
  NoDup (map fst
           (written
              (fst (generate_monthly_reports_docx quiet_world TARGET_NAME 2
                      2028)))).
Proof.
  assert (H1 : valid_year_month 2028 2 = true) by reflexivity.
  assert (H2 : forall op, fails quiet_world op = None)
    by (intros op; reflexivity).
  split; [exact H1|]. split; [exact H2|].
  exact (quiet_batch_names_distinct quiet_world TARGET_NAME 2 2028 H1 H2).
Defined.

Lemma flat_map_ext_seq {B} (f g : nat -> list B) (i0 n : nat) :
  (forall k, i0 <= k < i0 + n -> f k = g k) ->
  flat_map f (seq i0 n) = flat_map g (seq i0 n).
Proof.
  revert i0; induction n as [|n IH]; intros i0 H; simpl; [reflexivity|].
  rewrite (H i0) by lia. f_equal. apply IH. intros k Hk. apply H. lia.
Qed.

(** The whole log of a run whose only failure is the save of day [i]. *)
Lemma generate_save_fails (w : World) (target_name : str)
    (target_month target_year : Z) (i : nat) (e : exn) :
  valid_year_month target_year target_month = true ->
  i < days_in_month target_year target_month ->
  fails w (SaveReport i) = Some e ->
  (forall op, op <> SaveReport i -> fails w op = None) ->
  fst (generate_monthly_reports_docx w target_name target_month target_year)
  = [Call MakeDirs; Print MsgStarting; Call LoadTemplate]
    ++ (flat_map (day_log w target_month target_year) (seq 0 i)
        ++ [Call (CopyTemplate i); Call (OpenCopy i); Call (SaveReport i)])
    ++ [Print (exn_message e)].
Proof.
  intros Hvalid Hi Hsave Hok.
  rewrite generate_log by (try assumption; apply Hok; discriminate).
  rewrite (Hok LoadTemplate) by discriminate. cbv zeta.
  assert (Hday : forall k, k <> i ->
            generate_one w target_month target_year k
            = (day_log w target_month target_year k, inr tt)).
  { intros k Hk. apply generate_one_success; apply Hok;
      try discriminate. intros H. injection H as ->. now apply Hk. }
  assert (Hfail : generate_one w target_month target_year i
            = ([Call (CopyTemplate i); Call (OpenCopy i);
                Call (SaveReport i)], inl e)).
  { apply generate_one_save_fails; try assumption; apply Hok; discriminate. }
  rewrite (for_range_fails_at (generate_one w target_month target_year) i e)
    by (rewrite ?Hfail; try reflexivity; try lia;
        intros k Hk; rewrite Hday by lia; reflexivity).
  cbn [fst snd]. rewrite Hfail, Nat.sub_0_r. cbn [fst].
  rewrite (flat_map_ext_seq _ (day_log w target_month target_year))
    by (intros k Hk; rewrite Hday by lia; reflexivity).
  reflexivity.
Qed.

(** X10.  When the save of day [i] is the only operation that fails, the
    documents of the days before [i] are written and no other, the
    temporary copy of day [i] has been made and is never removed, and the
    diagnostic of the exception is printed. *)
Theorem failed_save_leaves_temporary_copy (w : World) (target_name : str)
    (target_month target_year : Z) (i : nat) (e : exn) :
  valid_year_month target_year target_month = true ->
  i < days_in_month target_year target_month ->
  fails w (SaveReport i) = Some e ->
  (forall op, op <> SaveReport i -> fails w op = None) ->
  let log :=
    fst (generate_monthly_reports_docx w target_name target_month
           target_year) in
  written log
  = map (fun k =>
           (report_name target_month target_year k,
            process_all_text_locations (template w) DATE_PLACEHOLDER
              (formatted_date target_month target_year k)
              NAME_PLACEHOLDER_PREFIX []))
        (seq 0 i) /\
  called (CopyTemplate i) log = true /\
  called (RemoveTemp i) log = false /\
  printed (exn_message e) log.
Proof.
  intros Hvalid Hi Hsave Hok log. unfold log, printed.
  rewrite (generate_save_fails w target_name _ _ i e Hvalid Hi Hsave Hok).
  repeat split.
  - rewrite !written_app, written_days.
    change (written [Call MakeDirs; Print MsgStarting; Call LoadTemplate])
      with (@nil (str * Document)).
    change (written [Call (CopyTemplate i); Call (OpenCopy i);
                     Call (SaveReport i)])
      with (@nil (str * Document)).
    change (written [Print (exn_message e)]) with (@nil (str * Document)).
    now rewrite app_nil_l, !app_nil_r.
  - apply called_In. rewrite !in_app_iff. right. left. right.
    left. reflexivity.
  - apply not_called. rewrite !in_app_iff, in_flat_map.
    intros [H|[[(k & Hk & H)|H]|H]].
    + destruct H as [H|[H|[H|[]]]]; discriminate H.
    + apply in_seq in Hk. unfold day_log in H.
      destruct H as [H|[H|[H|[H|[H|[H|[]]]]]]]; try discriminate H.
      injection H as ->. lia.
    + destruct H as [H|[H|[H|[]]]]; discriminate H.
    + destruct H as [H|[]]. discriminate H.
  - rewrite !in_app_iff. right. right. left. reflexivity.
Qed.

Lemma failed_save_leaves_temporary_copy_witness :
  let log :=
    fst (generate_monthly_reports_docx first_save_fails TARGET_NAME 9 2025) in
  valid_year_month 2025 9 = true /\
  0 < days_in_month 2025 9 /\
  fails first_save_fails (SaveReport 0) = Some OtherException /\
  (forall op, op <> SaveReport 0 -> fails first_save_fails op = None) /\
  written log
  = map (fun k =>
           (report_name 9 2025 k,
            process_all_text_locations (template first_save_fails)
              DATE_PLACEHOLDER (formatted_date 9 2025 k)
              NAME_PLACEHOLDER_PREFIX []))
        (seq 0 0) /\
  called (CopyTemplate 0) log = true /\
  called (RemoveTemp 0) log = false /\
  printed (exn_message OtherException) log.
Proof.
  intros log.
  assert (H1 : valid_year_month 2025 9 = true) by reflexivity.
  assert (H2 : 0 < days_in_month 2025 9) by apply Nat.lt_0_succ.
  assert (H3 : fails first_save_fails (SaveReport 0) = Some OtherException)
    by reflexivity.
  assert (H4 : forall op, op <> SaveReport 0 ->
                          fails first_save_fails op = None).
  { intros [| |k|k|[|k]|k] H; try reflexivity. now destruct H. }
  repeat (split; [assumption|]).
  exact (failed_save_leaves_temporary_copy first_save_fails TARGET_NAME 9 2025
           0 OtherException H1 H2 H3 H4).
Defined.

(** Past the folder creation no exception leaves the function. *)
Lemma generate_returns (w : World) (target_name : str)
    (target_month target_year : Z) :
  valid_year_month target_year target_month = true ->
  fails w MakeDirs = None ->
  snd (generate_monthly_reports_docx w target_name target_month target_year)
  = inr tt.
Proof.
  intros Hvalid Hmk. unfold generate_monthly_reports_docx, perform.
  rewrite (datetime_valid _ _ Hvalid), Hmk.
  destruct (fails w LoadTemplate) as [e|]; [now destruct e|].
  cbn [tell ret bind try_except fst snd app].
  destruct (for_range 0 (days_in_month target_year target_month)
              (generate_one w target_month target_year)) as [llog [e|[]]];
    [now destruct e | reflexivity].
Qed.

(** C8, amended.  When saving day [i]'s file is the first operation of
    the batch to fail, the run is this and nothing else: the folder step,
    the start message and the check of the template; the whole of every
    day before [i], file written, temporary copy removed and line printed;
    the copy, the opening and the attempted save of day [i]; one
    diagnostic, that of the exception.  Then the call returns normally: no
    operation of day [i] or of a later day follows the failed save, and
    the files written before stay. *)
Theorem batch_stops_at_first_failure (w : World) (target_name : str)
    (target_month target_year : Z) (i : nat) (e : exn) :
  valid_year_month target_year target_month = true ->
  fails w MakeDirs = None ->
  fails w LoadTemplate = None ->
  i < days_in_month target_year target_month ->
  (forall k, k < i -> day_succeeds w k) ->
  fails w (CopyTemplate i) = None ->
  fails w (OpenCopy i) = None ->
  fails w (SaveReport i) = Some e ->
  generate_monthly_reports_docx w target_name target_month target_year
  = ([Call MakeDirs; Print MsgStarting; Call LoadTemplate]
     ++ flat_map (day_log w target_month target_year) (seq 0 i)
     ++ [Call (CopyTemplate i); Call (OpenCopy i); Call (SaveReport i);
         Print (exn_message e)],
     inr tt).
Proof.
  intros Hvalid Hmk Hload Hi Hbefore Hcopy Hopen Hsave.
  rewrite (surjective_pairing (generate_monthly_reports_docx _ _ _ _)).
  rewrite generate_log, generate_returns by assumption.
  rewrite Hload. cbv zeta.
  assert (Hday : forall k, k < i ->
            generate_one w target_month target_year k
            = (day_log w target_month target_year k, inr tt)).
  { intros k Hk. destruct (Hbefore k Hk) as (H1 & H2 & H3 & H4).
    now apply generate_one_success. }
  assert (Hfail : generate_one w target_month target_year i
            = ([Call (CopyTemplate i); Call (OpenCopy i);
                Call (SaveReport i)], inl e))
    by now apply generate_one_save_fails.
  rewrite (for_range_fails_at (generate_one w target_month target_year) i e)
    by (rewrite ?Hfail; try reflexivity; try lia;
        intros k Hk; rewrite Hday by lia; reflexivity).
  cbn [fst snd]. rewrite Hfail, Nat.sub_0_r. cbn [fst].
  rewrite (flat_map_ext_seq _ (day_log w target_month target_year))
    by (intros k Hk; rewrite Hday by lia; reflexivity).
  rewrite <- !app_assoc. reflexivity.
Qed.

Lemma batch_stops_at_first_failure_witness :
  valid_year_month 2025 9 = true /\
  fails third_save_fails MakeDirs = None /\
  fails third_save_fails LoadTemplate = None /\
  2 < days_in_month 2025 9 /\
  (forall k, k < 2 -> day_succeeds third_save_fails k) /\
  fails third_save_fails (CopyTemplate 2) = None /\
  fails third_save_fails (OpenCopy 2) = None /\
  fails third_save_fails (SaveReport 2) = Some OtherException /\
  generate_monthly_reports_docx third_save_fails TARGET_NAME 9 2025
  = ([Call MakeDirs; Print MsgStarting; Call LoadTemplate]
     ++ flat_map (day_log third_save_fails 9 2025) (seq 0 2)
     ++ [Call (CopyTemplate 2); Call (OpenCopy 2); Call (SaveReport 2);
         Print (exn_message OtherException)],
     inr tt).
Proof.
  assert (H1 : valid_year_month 2025 9 = true) by reflexivity.
  assert (H2 : fails third_save_fails MakeDirs = None) by reflexivity.
  assert (H3 : fails third_save_fails LoadTemplate = None) by reflexivity.
  assert (H4 : 2 < days_in_month 2025 9) by (cbv; lia).
  assert (H5 : forall k, k < 2 -> day_succeeds third_save_fails k).
  { intros [|[|k]] Hk; [repeat split | repeat split | lia]. }
  assert (H6 : fails third_save_fails (CopyTemplate 2) = None) by reflexivity.
  assert (H7 : fails third_save_fails (OpenCopy 2) = None) by reflexivity.
  assert (H8 : fails third_save_fails (SaveReport 2) = Some OtherException)
    by reflexivity.
  repeat (split; [assumption|]).
  exact (batch_stops_at_first_failure third_save_fails TARGET_NAME 9 2025 2
           OtherException H1 H2 H3 H4 H5 H6 H7 H8).
Defined.

(** C8, as stated, fails: when saving the first report of September 2025
    fails, the second day's file is never attempted. *)
Lemma later_days_not_attempted :
  let log :=
    fst (generate_monthly_reports_docx first_save_fails TARGET_NAME 9 2025) in
  fails first_save_fails (SaveReport 0) = Some OtherException /\
  days_in_month 2025 9 = 30 /\
  log = [Call MakeDirs; Print MsgStarting; Call LoadTemplate;
         Call (CopyTemplate 0); Call (OpenCopy 0); Call (SaveReport 0);
         Print MsgUnexpectedError] /\
  called (CopyTemplate 1) log = false /\
  called (SaveReport 1) log = false.
Proof. repeat split. Qed.


(** X11.  When the template cannot be opened the run consists of the
    output-folder step (the check and, if needed, the creation), the start
    message, the attempt to open the template and one diagnostic: no day is
    started, nothing is written, and the call returns normally. *)
Theorem template_failure_writes_nothing (w : World) (target_name : str)
    (target_month target_year : Z) (e : exn) :
  valid_year_month target_year target_month = true ->
  fails w MakeDirs = None ->
  fails w LoadTemplate = Some e ->
  generate_monthly_reports_docx w target_name target_month target_year
  = ([Call MakeDirs; Print MsgStarting; Call LoadTemplate;
      Print (exn_message e)], inr tt).
Proof.
  intros Hvalid Hmk Hload.
  rewrite (surjective_pairing (generate_monthly_reports_docx _ _ _ _)).
  rewrite generate_log, generate_returns by assumption.
  now rewrite Hload.
Qed.

Lemma template_failure_writes_nothing_witness :
  valid_year_month 2025 9 = true /\
  fails no_template MakeDirs = None /\
  fails no_template LoadTemplate = Some OtherException /\
  generate_monthly_reports_docx no_template TARGET_NAME 9 2025
  = ([Call MakeDirs; Print MsgStarting; Call LoadTemplate;
      Print (exn_message OtherException)], inr tt).
Proof.
  assert (H1 : valid_year_month 2025 9 = true) by reflexivity.
  assert (H2 : fails no_template MakeDirs = None) by reflexivity.
  assert (H3 : fails no_template LoadTemplate = Some OtherException)
    by reflexivity.
  repeat (split; [assumption|]).
  exact (template_failure_writes_nothing no_template TARGET_NAME 9 2025
           OtherException H1 H2 H3).
Defined.

(** X12.  An exception leaves [generate_monthly_reports_docx] in two cases
    only.  Either the year or the month does not fit a C [int]: then it is
    the [OverflowError] of [datetime], which the handler for [ValueError]
    lets through, and nothing has been printed or done.  Or the date is
    valid and the output-folder step, which runs before the second [try]
    block, fails: then it is that step's exception.  Every other failure
    is caught. *)
Theorem only_overflow_and_folder_step_raise (w : World) (target_name : str)
    (target_month target_year : Z) (e : exn) :
  let run :=
    generate_monthly_reports_docx w target_name target_month target_year in
  (snd run = inl e
   <-> (fits_c_int target_year && fits_c_int target_month = false /\
        e = OverflowError) \/
       (valid_year_month target_year target_month = true /\
        fails w MakeDirs = Some e)) /\
  (fits_c_int target_year && fits_c_int target_month = false ->
   run = ([], inl OverflowError)).
Proof.
  intros run. unfold run. clear run.
  destruct (valid_year_month target_year target_month) eqn:Hvalid.
  - pose proof (datetime_valid _ _ Hvalid) as Hd.
    assert (Hfit : fits_c_int target_year && fits_c_int target_month = true).
    { unfold datetime in Hd.
      destruct (fits_c_int target_year && fits_c_int target_month);
        [reflexivity | discriminate Hd]. }
    rewrite Hfit. split; [|discriminate].
    destruct (fails w MakeDirs) as [e0|] eqn:Hmk.
    + unfold generate_monthly_reports_docx, perform. rewrite Hd, Hmk.
      cbn [tell raise bind fst snd app]. split.
      * intros H. right. split; [reflexivity | congruence].
      * intros [[H _]|[_ H]]; [discriminate H | congruence].
    + rewrite generate_returns by assumption. split.
      * discriminate.
      * intros [[H _]|[_ H]]; discriminate H.
  - unfold generate_monthly_reports_docx, datetime. rewrite Hvalid.
    destruct (fits_c_int target_year && fits_c_int target_month).
    + cbn [negb tell snd]. split; [|discriminate]. split.
      * discriminate.
      * intros [[H _]|[H _]]; discriminate H.
    + cbn [negb raise snd]. split; [|reflexivity]. split.
      * intros H. left. split; [reflexivity | congruence].
      * intros [[_ ->]|[H _]]; [reflexivity | discriminate H].
Qed.

Lemma only_overflow_and_folder_step_raise_witness :
  let run :=
    generate_monthly_reports_docx quiet_world TARGET_NAME 1 2147483648 in
  fits_c_int 2147483648 && fits_c_int 1 = false /\
  (snd run = inl OverflowError
   <-> (fits_c_int 2147483648 && fits_c_int 1 = false /\
        OverflowError = OverflowError) \/
       (valid_year_month 2147483648 1 = true /\
        fails quiet_world MakeDirs = Some OverflowError)) /\
  (fits_c_int 2147483648 && fits_c_int 1 = false ->
   run = ([], inl OverflowError)).
Proof.
  intros run. split; [reflexivity|].
  exact (only_overflow_and_folder_step_raise quiet_world TARGET_NAME 1
           2147483648 OverflowError).
Defined.

Lemma for_range_log_in (body : nat -> IO unit) (ev : event) (n : nat) :
  forall i0, In ev (fst (for_range i0 n body)) ->
  exists k, i0 <= k < i0 + n /\ In ev (fst (body k)).
Proof.
  induction n as [|n IH]; intros i0 H; [destruct H|].
  simpl for_range in H. apply bind_log in H.
  destruct H as [H|(_ & _ & H)].
  - exists i0. split; [lia | assumption].
  - destruct (IH _ H) as (k & Hk & Hin). exists k. split; [lia | assumption].
Qed.

Lemma generate_one_prints (w : World) (target_month target_year : Z)
    (i : nat) (m : message) :
  In (Print m) (fst (generate_one w target_month target_year i)) ->
  m = MsgGenerated (report_name target_month target_year i)
                   (formatted_date target_month target_year i).
Proof.
  unfold generate_one. intros H.
  repeat (apply bind_log in H; destruct H as [H|(_ & _ & H)];
          [first [apply perform_log in H; discriminate H
                 | destruct H as [H|[]]; discriminate H] |]).
  destruct H as [H|[]]. now injection H as <-.
Qed.

(** A run that passes the date check does not print the date message. *)
Lemma valid_date_not_reported (w : World) (target_name : str)
    (target_month target_year : Z) :
  valid_year_month target_year target_month = true ->
  ~ printed MsgInvalidDate
      (fst (generate_monthly_reports_docx w target_name target_month
              target_year)).
Proof.
  intros Hvalid. unfold printed.
  destruct (fails w MakeDirs) as [e0|] eqn:Hmk.
  - unfold generate_monthly_reports_docx, perform.
    rewrite (datetime_valid _ _ Hvalid), Hmk.
    cbn [tell raise bind fst snd app].
    intros [H|[]]. discriminate H.
  - rewrite generate_log by assumption. rewrite in_app_iff.
    intros [H|H].
    + destruct H as [H|[H|[H|[]]]]; discriminate H.
    + destruct (fails w LoadTemplate) as [e|].
      * destruct H as [H|[]]. destruct e; discriminate H.
      * cbv zeta in H. apply in_app_iff in H. destruct H as [H|H].
        -- apply for_range_log_in in H. destruct H as (k & _ & H).
           apply generate_one_prints in H. discriminate H.
        -- destruct (snd (for_range 0 _ _)) as [e|];
             [destruct H as [H|[]]; destruct e; discriminate H | destruct H].
Qed.

(** X13.  The invalid-date message is printed exactly when the year and
    the month fit a C [int] and are not a year from 1 to 9999 with a month
    from 1 to 12; printing it is then all the call does, and it returns
    normally. *)
Theorem invalid_date_reported_alone (w : World) (target_name : str)
    (target_month target_year : Z) :
  let run :=
    generate_monthly_reports_docx w target_name target_month target_year in
  let caught :=
    fits_c_int target_year && fits_c_int target_month
    && negb (valid_year_month target_year target_month) in
  (printed MsgInvalidDate (fst run) <-> caught = true) /\
  (caught = true -> run = ([Print MsgInvalidDate], inr tt)).
Proof.
  intros run caught. unfold run, caught. clear run caught.
  destruct (valid_year_month target_year target_month) eqn:Hvalid.
  - rewrite andb_false_r. split; [|discriminate]. split; [|discriminate].
    intros H. now destruct (valid_date_not_reported w target_name _ _ Hvalid).
  - unfold generate_monthly_reports_docx, datetime. rewrite Hvalid.
    destruct (fits_c_int target_year && fits_c_int target_month).
    + cbn [negb andb tell fst]. split; [|reflexivity]. split.
      * reflexivity.
      * intros _. left. reflexivity.
    + cbn [negb andb raise fst]. split; [|discriminate]. split.
      * intros [].
      * discriminate.
Qed.

(** ** The prompt loop *)

Section PromptProperties.

Variable int : str -> option Z.

Lemma snd_logged {A} (evs : list ui_event) (r : list ui_event * A) :
  snd (logged evs r) = snd r.
Proof. reflexivity. Qed.

(** X14.  A pair returned by [get_user_input] has its month in 1..12 and
    its year in 2000..2100, and the two numbers were read from two
    consecutive lines of the input. *)
Theorem get_user_input_sound (fuel : nat) (lines : list str)
    (month year : Z) :
  snd (get_user_input int fuel lines) = Some (month, year) ->
  (1 <= month <= 12)%Z /\ (2000 <= year <= 2100)%Z /\
  exists pre month_input year_input post,
    lines = pre ++ month_input :: year_input :: post /\
    int month_input = Some month /\ int year_input = Some year.
Proof.
  revert lines; induction fuel as [|fuel IH]; intros lines; simpl;
    [discriminate|].
  destruct lines as [|l1 rest].
  { rewrite snd_logged. intros H. destruct (IH _ H) as (_ & _ & pre & a & b
      & post & Hl & _). now destruct pre. }
  assert (Hskip : snd (get_user_input int fuel rest) = Some (month, year) ->
    (1 <= month <= 12)%Z /\ (2000 <= year <= 2100)%Z /\
    exists pre month_input year_input post,
      l1 :: rest = pre ++ month_input :: year_input :: post /\
      int month_input = Some month /\ int year_input = Some year).
  { intros H. destruct (IH _ H) as (Hm & Hy & pre & a & b & post & Hl & Ha
      & Hb). split; [exact Hm|]. split; [exact Hy|].
    exists (l1 :: pre), a, b, post. simpl. now rewrite Hl. }
  destruct (int l1) as [m|] eqn:E1; [|now rewrite snd_logged].
  destruct ((1 <=? m) && (m <=? 12))%Z eqn:Em; simpl negb; cbv iota;
    [|now rewrite snd_logged].
  destruct rest as [|l2 rest'].
  { rewrite snd_logged. intros H. destruct (IH _ H) as (_ & _ & pre & a & b
      & post & Hl & _). now destruct pre. }
  assert (Hskip2 : snd (get_user_input int fuel rest') = Some (month, year) ->
    (1 <= month <= 12)%Z /\ (2000 <= year <= 2100)%Z /\
    exists pre month_input year_input post,
      l1 :: l2 :: rest' = pre ++ month_input :: year_input :: post /\
      int month_input = Some month /\ int year_input = Some year).
  { intros H. destruct (IH _ H) as (Hm & Hy & pre & a & b & post & Hl & Ha
      & Hb). split; [exact Hm|]. split; [exact Hy|].
    exists (l1 :: l2 :: pre), a, b, post. simpl. now rewrite Hl. }
  destruct (int l2) as [y|] eqn:E2; [|now rewrite snd_logged].
  destruct ((y <? 2000) || (y >? 2100))%Z eqn:Ey; [now rewrite snd_logged|].
  simpl. intros [= <- <-].
  apply andb_true_iff in Em. destruct Em as [Em1 Em2].
  apply orb_false_iff in Ey. destruct Ey as [Ey1 Ey2].
  apply Z.leb_le in Em1, Em2. apply Z.ltb_ge in Ey1.
  rewrite Z.gtb_ltb in Ey2. apply Z.ltb_ge in Ey2.
  split; [lia|]. split; [lia|].
  exists [], l1, l2, rest'. now repeat split.
Qed.

(** X15.  On an input none of whose lines is accepted as a month (the
    empty input among them) the prompt loop never returns, however many
    passes it is given: at the end of the input the catch-all handler
    takes the [EOFError] and the loop starts over. *)
Theorem get_user_input_spins (lines : list str) :
  Forall (rejected_month int) lines ->
  forall fuel, snd (get_user_input int fuel lines) = None.
Proof.
  intros Hl fuel. revert lines Hl.
  induction fuel as [|fuel IH]; intros lines Hl; simpl; [reflexivity|].
  destruct lines as [|l1 rest]; [rewrite snd_logged; now apply IH|].
  inversion Hl as [|? ? Hr Hrest]; subst. unfold rejected_month in Hr.
  destruct (int l1) as [m|]; [|rewrite snd_logged; now apply IH].
  rewrite Hr. simpl negb. cbv iota. rewrite snd_logged. now apply IH.
Qed.

Lemma get_user_input_eof (fuel : nat) :
  snd (get_user_input int fuel []) = None.
Proof. apply get_user_input_spins. constructor. Qed.

Lemma get_user_input_step (fuel : nat) :
  forall lines, length lines < fuel ->
  snd (get_user_input int fuel lines)
  = snd (get_user_input int (S fuel) lines).
Proof.
  induction fuel as [|fuel IH]; intros lines Hlen; [lia|].
  destruct lines as [|l1 rest].
  { now rewrite !get_user_input_eof. }
  simpl in Hlen.
  change (snd (get_user_input int (S fuel) (l1 :: rest))
          = snd (get_user_input int (S (S fuel)) (l1 :: rest))).
  cbn [get_user_input].
  destruct (int l1) as [m|];
    [|rewrite !snd_logged; apply IH; lia].
  destruct (negb ((1 <=? m) && (m <=? 12))%Z);
    [rewrite !snd_logged; apply IH; lia|].
  destruct rest as [|l2 rest'].
  { rewrite !snd_logged. now rewrite !get_user_input_eof. }
  simpl in Hlen.
  destruct (int l2) as [y|];
    [|rewrite !snd_logged; apply IH; lia].
  destruct ((y <? 2000) || (y >? 2100))%Z;
    [rewrite !snd_logged; apply IH; lia | reflexivity].
Qed.

(** X16.  Once the number of passes allowed exceeds the number of input
    lines, the outcome of the prompt loop no longer depends on it: either
    the pair has been returned, or the loop never returns. *)
Theorem get_user_input_settles (lines : list str) (fuel fuel' : nat) :
  length lines < fuel -> fuel <= fuel' ->
  snd (get_user_input int fuel' lines) = snd (get_user_input int fuel lines).
Proof.
  intros Hlen Hle. induction Hle as [|fuel' Hle IH]; [reflexivity|].
  rewrite <- IH. symmetry. apply get_user_input_step. lia.
Qed.

(** X17.  Lines the month prompt turns down are skipped one per pass: after
    any number of them, a valid month followed by a valid year is
    returned. *)
Theorem get_user_input_skips_rejected (bad : list str)
    (month_input year_input : str) (rest : list str) (month year : Z)
    (fuel : nat) :
  Forall (rejected_month int) bad ->
  int month_input = Some month -> (1 <= month <= 12)%Z ->
  int year_input = Some year -> (2000 <= year <= 2100)%Z ->
  length bad < fuel ->
  snd (get_user_input int fuel (bad ++ month_input :: year_input :: rest))
  = Some (month, year).
Proof.
  intros Hbad Hm Hmr Hy Hyr. revert fuel.
  induction Hbad as [|l1 bad Hr Hbad IH]; intros fuel Hlen.
  - destruct fuel as [|fuel]; [simpl in Hlen; lia|].
    simpl. rewrite Hm.
    replace ((1 <=? month) && (month <=? 12))%Z with true
      by (symmetry; apply andb_true_iff; split; apply Z.leb_le; lia).
    simpl negb. cbv iota. rewrite Hy.
    replace ((year <? 2000) || (year >? 2100))%Z with false; [reflexivity|].
    symmetry. apply orb_false_iff. rewrite Z.gtb_ltb.
    split; apply Z.ltb_ge; lia.
  - destruct fuel as [|fuel]; [simpl in Hlen; lia|].
    simpl in Hlen. cbn [app get_user_input].
    unfold rejected_month in Hr.
    destruct (int l1) as [m|];
      [rewrite Hr; simpl negb; cbv iota|];
      rewrite snd_logged; apply IH; lia.
Qed.

Lemma get_user_input_range (fuel : nat) (lines : list str)
    (month year : Z) :
  snd (get_user_input int fuel lines) = Some (month, year) ->
  valid_year_month year month = true.
Proof.
  revert lines; induction fuel as [|fuel IH]; intros lines; simpl;
    [discriminate|].
  destruct lines as [|l1 rest]; [rewrite snd_logged; apply IH|].
  destruct (int l1) as [m|]; [|rewrite snd_logged; apply IH].
  destruct ((1 <=? m) && (m <=? 12))%Z eqn:Em; simpl negb; cbv iota;
    [|rewrite snd_logged; apply IH].
  destruct rest as [|l2 rest']; [rewrite snd_logged; apply IH|].
  destruct (int l2) as [y|]; [|rewrite snd_logged; apply IH].
  destruct ((y <? 2000) || (y >? 2100))%Z eqn:Ey;
    [rewrite snd_logged; apply IH|].
  simpl. intros [= <- <-]. unfold valid_year_month.
  apply orb_false_iff in Ey. destruct Ey as [Ey1 Ey2].
  apply Z.ltb_ge in Ey1. rewrite Z.gtb_ltb in Ey2. apply Z.ltb_ge in Ey2.
  rewrite <- andb_assoc, Em, andb_true_r.
  apply andb_true_iff. split; apply Z.leb_le; lia.
Qed.

(** X18.  When the entry point gets as far as the batch, the batch is run
    for the month and year the prompt loop returned, these pass the date
    check, and the invalid-date message is not printed. *)
Theorem main_passes_date_check (fuel : nat) (lines : list str) (w : World)
    (run : IO unit) :
  snd (main int fuel lines w) = Some run ->
  exists month year,
    snd (get_user_input int fuel lines) = Some (month, year) /\
    run = generate_monthly_reports_docx w TARGET_NAME month year /\
    valid_year_month year month = true /\
    ~ printed MsgInvalidDate (fst run).
Proof.
  unfold main.
  destruct (get_user_input int fuel lines) as [log [[month year]|]] eqn:E;
    simpl; [|discriminate].
  intros [= <-]. exists month, year.
  assert (Hv : valid_year_month year month = true).
  { apply (get_user_input_range fuel lines). now rewrite E. }
  repeat split; try assumption. now apply valid_date_not_reported.
Qed.

End PromptProperties.

Lemma get_user_input_sound_witness :
  snd (get_user_input read_decimal 10 typed_lines) = Some (2, 2028)%Z /\
  (1 <= 2 <= 12)%Z /\ (2000 <= 2028 <= 2100)%Z /\
  exists pre month_input year_input post,
    typed_lines = pre ++ month_input :: year_input :: post /\
    read_decimal month_input = Some 2%Z /\
    read_decimal year_input = Some 2028%Z.
Proof.
  assert (H : snd (get_user_input read_decimal 10 typed_lines)
              = Some (2, 2028)%Z) by reflexivity.
  split; [exact H|].
  exact (get_user_input_sound read_decimal 10 typed_lines 2 2028 H).
Defined.

Lemma get_user_input_spins_witness :
  Forall (rejected_month read_decimal) [lit "13"; lit "abc"] /\
  forall fuel,
    snd (get_user_input read_decimal fuel [lit "13"; lit "abc"]) = None.
Proof.
  assert (H : Forall (rejected_month read_decimal) [lit "13"; lit "abc"]).
  { constructor; [reflexivity|]. constructor; [exact I|]. constructor. }
  split; [exact H|].
  exact (get_user_input_spins read_decimal [lit "13"; lit "abc"] H).
Defined.

Lemma get_user_input_settles_witness :
  length typed_lines < 7 /\ 7 <= 9 /\
  snd (get_user_input read_decimal 9 typed_lines)
  = snd (get_user_input read_decimal 7 typed_lines).
Proof.
  assert (H1 : length typed_lines < 7) by (simpl; repeat constructor).
  assert (H2 : 7 <= 9) by repeat constructor.
  split; [exact H1|]. split; [exact H2|].
  exact (get_user_input_settles read_decimal typed_lines 7 9 H1 H2).
Defined.

Lemma get_user_input_skips_rejected_witness :
  let bad := [lit "13"; lit "abc"] in
  Forall (rejected_month read_decimal) bad /\
  read_decimal (lit "2") = Some 2%Z /\ (1 <= 2 <= 12)%Z /\
  read_decimal (lit "2028") = Some 2028%Z /\ (2000 <= 2028 <= 2100)%Z /\
  length bad < 3 /\
  snd (get_user_input read_decimal 3 (bad ++ lit "2" :: lit "2028" :: []))
  = Some (2, 2028)%Z.
Proof.
  intros bad.
  assert (H1 : Forall (rejected_month read_decimal) bad).
  { constructor; [reflexivity|]. constructor; [exact I|]. constructor. }
  assert (H2 : read_decimal (lit "2") = Some 2%Z) by reflexivity.
  assert (H3 : (1 <= 2 <= 12)%Z) by (split; discriminate).
  assert (H4 : read_decimal (lit "2028") = Some 2028%Z) by reflexivity.
  assert (H5 : (2000 <= 2028 <= 2100)%Z) by (split; discriminate).
  assert (H6 : length bad < 3) by (simpl; repeat constructor).
  repeat (split; [assumption|]).
  exact (get_user_input_skips_rejected read_decimal bad (lit "2") (lit "2028")
           [] 2 2028 3 H1 H2 H3 H4 H5 H6).
Defined.

Lemma main_passes_date_check_witness :
  let run := generate_monthly_reports_docx quiet_world TARGET_NAME 2 2028 in
  snd (main read_decimal 10 typed_lines quiet_world) = Some run /\
  exists month year,
    snd (get_user_input read_decimal 10 typed_lines) = Some (month, year) /\
    run = generate_monthly_reports_docx quiet_world TARGET_NAME month year /\
    valid_year_month year month = true /\
    ~ printed MsgInvalidDate (fst run).
Proof.
  intros run.
  assert (H : snd (main read_decimal 10 typed_lines quiet_world) = Some run)
    by reflexivity.
  split; [exact H|].
  exact (main_passes_date_check read_decimal 10 typed_lines quiet_world run H).
Defined.
